(** * mcp-clickhouse: the query pipeline of [db_utils.py] and the row mapper
    of [structures.py], embedded as executable definitions.

    Python dictionaries are insertion-ordered association lists with unique
    keys ([dict]); their finite-map reading is a stdpp [gmap] ([dict_map]).
    Mutation of an argument is explicit: a function that rewrites a
    dictionary it was handed returns the final contents of that dictionary
    next to its result.  Exceptions are the [Raise] branch of [result]. *)

From Stdlib Require Import String Ascii List ZArith QArith.
From stdpp Require Import base option list gmap strings fin_maps.
Import ListNotations.
Local Open Scope string_scope.
Local Open Scope list_scope.

(** ** Exceptions *)

Inductive exn : Type :=
| RuntimeError (msg : string)
| KeyError (key : string)
| ValueError (msg : string)
| ValidationError (msg : string)
| DriverError (msg : string).

Inductive result (A : Type) : Type :=
| Ok (a : A)
| Raise (e : exn).
Arguments Ok {A} a.
Arguments Raise {A} e.

(** ** The string methods the sources call, at one-character needles *)

(** [s.startswith(c)] *)
Definition str_startswith (s : string) (c : ascii) : bool :=
  match s with
  | String a _ => Ascii.eqb a c
  | EmptyString => false
  end.

(** [s.removeprefix(c)] *)
Definition str_removeprefix (s : string) (c : ascii) : string :=
  match s with
  | String a s' => if Ascii.eqb a c then s' else s
  | EmptyString => s
  end.

(** [c in s] *)
Fixpoint str_contains (c : ascii) (s : string) : bool :=
  match s with
  | EmptyString => false
  | String a s' => if Ascii.eqb a c then true else str_contains c s'
  end.

(** [s.count(c)] *)
Fixpoint str_count (s : string) (c : ascii) : nat :=
  match s with
  | EmptyString => 0
  | String a s' => (if Ascii.eqb a c then 1 else 0) + str_count s' c
  end.

(** [s.split(sep)]: every occurrence of [sep] cuts, empty pieces are kept. *)
Fixpoint str_split (s : string) (sep : ascii) : list string :=
  match s with
  | EmptyString => [EmptyString]
  | String a s' =>
      if Ascii.eqb a sep then EmptyString :: str_split s' sep
      else match str_split s' sep with
           | piece :: pieces => String a piece :: pieces
           | [] => [String a EmptyString]
           end
  end.

Definition sigil : ascii := "@"%char.
Definition separator : ascii := "."%char.

(** ** Python dictionaries *)

Definition dict (V : Type) : Type := list (string * V).

Section Dict.
Context {V : Type}.

(** [d.get(k)] *)
Fixpoint dict_get (k : string) (d : dict V) : option V :=
  match d with
  | [] => None
  | (k', v) :: d' => if String.eqb k k' then Some v else dict_get k d'
  end.

(** [d[k] = v]: an existing key keeps its position, a new key goes last. *)
Fixpoint dict_set (k : string) (v : V) (d : dict V) : dict V :=
  match d with
  | [] => [(k, v)]
  | (k', v') :: d' =>
      if String.eqb k k' then (k, v) :: d' else (k', v') :: dict_set k v d'
  end.

(** [d.pop(k)]: [None] stands for the [KeyError] of an absent key. *)
Fixpoint dict_pop (k : string) (d : dict V) : option (V * dict V) :=
  match d with
  | [] => None
  | (k', v') :: d' =>
      if String.eqb k k' then Some (v', d')
      else match dict_pop k d' with
           | Some (v, d'') => Some (v, (k', v') :: d'')
           | None => None
           end
  end.

(** [d.update(src)] *)
Definition dict_update (src : dict V) (d : dict V) : dict V :=
  fold_left (fun acc kv => dict_set (fst kv) (snd kv) acc) src d.

Definition dict_keys (d : dict V) : list string := map fst d.

(** The finite map a dictionary denotes. *)
Definition dict_map (d : dict V) : gmap string V := list_to_map d.

End Dict.

(** ** Values carried by rows *)

#[warning="-register-all"] Inductive value : Type :=
| VNone
| VBool (b : bool)
| VInt (z : Z)
| VStr (s : string)
| VList (l : list value)
| VDict (d : list (string * value)).

Abbreviation row := (dict value).

(** ** structures.py *)

Module BaseStructure.

(** [dct.setdefault(parent, {})[child] = value] *)
Definition setdefault_setitem (parent child : string) (v : value)
    (dct : dict (dict value)) : dict (dict value) :=
  match dict_get parent dct with
  | Some d => dict_set parent (dict_set child v d) dct
  | None => dict_set parent (dict_set child v []) dct
  end.

(** What [parent, child = key.split('.')] raises when the split does not
    have two pieces. *)
Definition unpack_too_many : exn := ValueError "too many values to unpack (expected 2)".
Definition unpack_not_enough : exn := ValueError "not enough values to unpack (expected 2)".

(** The [for key, value in row.copy().items()] loop of [from_row].  [items]
    is what is left of the copy, [r] the caller's row as mutated so far and
    [dct] the local dictionary of nested mappings.  The second component of
    the answer is the caller's row when the loop stops. *)
Fixpoint from_row_loop (items : row) (r : row) (dct : dict (dict value))
    : result (dict (dict value)) * row :=
  match items with
  | [] => (Ok dct, r)
  | (key, v) :: items' =>
      let stripped :=
        if str_startswith key sigil then
          match dict_pop key r with
          | Some (popped, r') => Ok (dict_set (str_removeprefix key sigil) popped r')
          | None => Raise (KeyError key)
          end
        else Ok r in
      match stripped with
      | Raise e => (Raise e, r)
      | Ok r1 =>
          if str_contains separator key then
            match str_split key separator with
            | [parent; child] =>
                let dct' := setdefault_setitem parent child v dct in
                match dict_pop key r1 with
                | Some (_, r2) => from_row_loop items' r2 dct'
                | None => (Raise (KeyError key), r1)
                end
            | [] | [_] =>
                (Raise unpack_not_enough, r1)
            | _ =>
                (Raise unpack_too_many, r1)
            end
          else from_row_loop items' r1 dct
      end
  end.

(** [row.update(dct)]: every nested mapping is stored under its parent. *)
Definition merge_nested (dct : dict (dict value)) (r : row) : row :=
  dict_update (map (fun pd => (fst pd, VDict (snd pd))) dct) r.

Section Model.
Context {T : Type}.
(** [cls]: the constructor of the target schema, called with the row's
    entries as keyword arguments. *)
Variable cls : row -> result T.

(** [cls.from_row(row)]: the record (or the exception) and the caller's row
    as the call leaves it. *)
Definition from_row (r : row) : result T * row :=
  match from_row_loop r r [] with
  | (Raise e, r') => (Raise e, r')
  | (Ok dct, r') => let kwargs := merge_nested dct r' in (cls kwargs, kwargs)
  end.

(** [cls.from_rows(rows)] *)
Fixpoint from_rows (rows : list row) : result (list T) * list row :=
  match rows with
  | [] => (Ok [], [])
  | x :: rows' =>
      match from_row x with
      | (Raise e, x') => (Raise e, x' :: rows')
      | (Ok t, x') =>
          match from_rows rows' with
          | (Ok ts, rows'') => (Ok (t :: ts), x' :: rows'')
          | (Raise e, rows'') => (Raise e, x' :: rows'')
          end
      end
  end.

End Model.

End BaseStructure.

(** ** config.py *)

Record ClickHouseConfig : Type := {
  USER : string;
  PASSWORD : option string;
  HOST : string;
  PORT : Z;
  SECURE : bool;
  DATABASE : string;
  HTTP_THREAD_EXECUTOR_POOL_SIZE : Z;
  HTTP_MAX_POOL_SIZE : Z;
  HTTP_NUM_POOLS : Z
}.

(** The settings when the environment overrides nothing. *)
Definition clickhouse_config_defaults : ClickHouseConfig := {|
  USER := "default";
  PASSWORD := None;
  HOST := "localhost";
  PORT := 8000;
  SECURE := false;
  DATABASE := "default";
  HTTP_THREAD_EXECUTOR_POOL_SIZE := 12;
  HTTP_MAX_POOL_SIZE := 12;
  HTTP_NUM_POOLS := 4
|}.

(** ** db_utils.py *)

(** [urllib3.Retry] and [urllib3.PoolManager], as far as this module sets
    and clears them.  [pm_pools] lists the hosts with a live connection
    pool; [PoolManager.clear()] empties it. *)
Record Retry : Type := {
  total : Z;
  backoff_factor : Q;
  backoff_max : Z
}.

Record PoolManager : Type := {
  pm_maxsize : Z;
  pm_num_pools : Z;
  pm_retries : Retry;
  pm_verify : bool;
  pm_pools : list string
}.

Definition pool_clear (pm : PoolManager) : PoolManager := {|
  pm_maxsize := pm_maxsize pm;
  pm_num_pools := pm_num_pools pm;
  pm_retries := pm_retries pm;
  pm_verify := pm_verify pm;
  pm_pools := []
|}.

(** What [AsyncClient.query] answers: the column names and the rows as
    dictionaries ([named_results()]). *)
Record QueryResult : Type := {
  column_names : list string;
  named_results : list row
}.

(** The driver's client.  [client_pool_mgr] is the address of the pool
    manager it was built on; [client_query query args settings] is the
    server's answer, or the exception the driver raises.  (The constant
    [query_tz=timezone.utc] is not an argument of the model.) *)
Record AsyncClient : Type := {
  client_pool_mgr : option nat;
  client_query : string -> option (dict value) -> dict value -> result QueryResult
}.

(** The module's state: the pool managers allocated so far, by address, and
    the two module-level references. *)
Record Globals : Type := {
  pools : list PoolManager;
  http_pool : option nat;
  http_client : option AsyncClient
}.

(** The state of a freshly imported module. *)
Definition module_init : Globals :=
  {| pools := []; http_pool := None; http_client := None |}.

Definition retries : Retry :=
  {| total := 10; backoff_factor := 1 # 10; backoff_max := 30 |}.

Definition GLOBAL_SETTINGS : dict value :=
  [("s3_max_get_rps", VInt 0); ("s3_max_get_burst", VInt 0); ("s3_max_put_rps", VInt 0)].

(** What the module takes from outside: the loaded settings and the
    driver's [clickhouse_connect.get_async_client], given the address of the
    pool manager, the executor threads, the settings and the keyword
    arguments. *)
Record Env : Type := {
  clickhouse_config : ClickHouseConfig;
  get_async_client : option nat -> Z -> dict value -> dict value -> result AsyncClient
}.

Record HTTPDictCursor : Type := {
  results : list row;
  session_id : string
}.

Module Cursor.

(** [HTTPDictCursor()]: [sid] is the [uuid4] drawn for the cursor.  The
    cursor's lock only orders concurrent tasks; a sequence of calls never
    finds it held, so it has no field in the model. *)
Definition init (sid : string) : HTTPDictCursor :=
  {| results := []; session_id := sid |}.

Definition scope_error : exn := RuntimeError "out of `with_clickhouse()` scope".

Definition execute (g : Globals) (self : HTTPDictCursor) (query : string)
    (args : option (dict value)) : result unit * HTTPDictCursor :=
  match http_client g with
  | None => (Raise scope_error, self)
  | Some client =>
      match client_query client query args [("session_id", VStr (session_id self))] with
      | Raise e => (Raise e, self)
      | Ok result =>
          if decide ("total_rows_to_read" ∈ column_names result) then (Ok tt, self)
          else (Ok tt, {| results := results self ++ named_results result;
                          session_id := session_id self |})
      end
  end.

Definition fetchone (self : HTTPDictCursor) : option row * HTTPDictCursor :=
  match results self with
  | r :: rest => (Some r, {| results := rest; session_id := session_id self |})
  | [] => (None, self)
  end.

Definition fetchall (self : HTTPDictCursor) : list row * HTTPDictCursor :=
  let dump := results self in
  (dump, {| results := []; session_id := session_id self |}).

(** [n] calls of [fetchone] in a row: what each returned, and the cursor
    after the last. *)
Fixpoint fetchone_times (n : nat) (self : HTTPDictCursor)
    : list (option row) * HTTPDictCursor :=
  match n with
  | O => ([], self)
  | S n' =>
      let (r, self') := fetchone self in
      let (rs, self'') := fetchone_times n' self' in
      (r :: rs, self'')
  end.

End Cursor.

(** [httputil.get_pool_manager(...)]: a new pool manager with no live pool,
    at the next free address. *)
Definition get_pool_manager (maxsize num_pools : Z) (r : Retry) (verify : bool)
    (g : Globals) : nat * Globals :=
  let pm := {| pm_maxsize := maxsize; pm_num_pools := num_pools; pm_retries := r;
               pm_verify := verify; pm_pools := [] |} in
  (length (pools g),
   {| pools := pools g ++ [pm]; http_pool := http_pool g; http_client := http_client g |}).

(** The local [get_http_client] of [with_clickhouse]: it reads the pool
    reference when it is called. *)
Definition get_http_client (env : Env) (kwargs : dict value) (g : Globals)
    : result AsyncClient :=
  let settings := GLOBAL_SETTINGS in
  get_async_client env (http_pool g)
    (HTTP_THREAD_EXECUTOR_POOL_SIZE (clickhouse_config env)) settings kwargs.

(** The [finally] block of [with_clickhouse]. *)
Definition with_clickhouse_exit (g : Globals) : Globals :=
  let cleared :=
    match http_pool g with
    | Some a => alter pool_clear a (pools g)
    | None => pools g
    end in
  {| pools := cleared; http_pool := None; http_client := http_client g |}.

(** [async with with_clickhouse(kwargs): body].  [body] receives the yielded
    pool reference and the module state, and leaves its outcome and the
    state it ends in. *)
Definition with_clickhouse {A} (env : Env) (kwargs : dict value)
    (body : option nat -> Globals -> result A * Globals) (g : Globals)
    : result A * Globals :=
  let (a, g1) :=
    get_pool_manager (HTTP_MAX_POOL_SIZE (clickhouse_config env))
      (HTTP_NUM_POOLS (clickhouse_config env)) retries false g in
  let g2 := {| pools := pools g1; http_pool := Some a; http_client := http_client g1 |} in
  match get_http_client env kwargs g2 with
  | Raise e => (Raise e, g2)
  | Ok client =>
      let g3 := {| pools := pools g2; http_pool := http_pool g2;
                   http_client := Some client |} in
      let (outcome, g4) := body (http_pool g3) g3 in
      (outcome, with_clickhouse_exit g4)
  end.

(** [clickhouse_default]: [with_clickhouse] with the configured connection
    parameters. *)
Definition clickhouse_default {A} (env : Env)
    (body : option nat -> Globals -> result A * Globals) (g : Globals)
    : result A * Globals :=
  let cfg := clickhouse_config env in
  with_clickhouse env
    [("host", VStr (HOST cfg)); ("port", VInt (PORT cfg)); ("user", VStr (USER cfg));
     ("password", match PASSWORD cfg with Some p => VStr p | None => VNone end);
     ("secure", VBool (SECURE cfg))]
    body g.

Definition db_fetchone {T} (model : row -> result T) (g : Globals) (sid : string)
    (query : string) (query_args : option (dict value)) : result (option T) :=
  let query_args := match query_args with None => [] | Some a => a end in
  let session := Cursor.init sid in
  match Cursor.execute g session query (Some query_args) with
  | (Raise e, _) => Raise e
  | (Ok _, session) =>
      match Cursor.fetchone session with
      | (None, _) => Ok None
      | (Some r, _) =>
          match BaseStructure.from_row model r with
          | (Ok t, _) => Ok (Some t)
          | (Raise e, _) => Raise e
          end
      end
  end.

Definition db_fetchall {T} (model : row -> result T) (g : Globals) (sid : string)
    (query : string) (query_args : option (dict value)) : result (list T) :=
  let query_args := match query_args with None => [] | Some a => a end in
  let session := Cursor.init sid in
  match Cursor.execute g session query (Some query_args) with
  | (Raise e, _) => Raise e
  | (Ok _, session) =>
      match Cursor.fetchall session with
      | ([], _) => Ok []
      | (rows, _) => fst (BaseStructure.from_rows model rows)
      end
  end.

(** ** structures.py: the schemas *)

Module Database.
Record t : Type := {
  name : string;
  engine : string;
  comment : string
}.
End Database.

Module Column.
Record t : Type := {
  database : string;
  table : string;
  name : string;
  column_type : string;
  default_kind : option string;
  default_expression : option string;
  comment : option string
}.
End Column.

Module Table.
Record t : Type := {
  database : string;
  name : string;
  engine : string;
  create_table_query : string;
  dependencies_database : list string;
  dependencies_table : list string;
  engine_full : string;
  sorting_key : string;
  primary_key : string;
  total_rows : option Z;
  total_bytes : option Z;
  total_bytes_uncompressed : option Z;
  parts : option Z;
  active_parts : option Z;
  total_marks : option Z;
  comment : string;
  columns : list Column.t
}.

(** [table.columns = columns] *)
Definition set_columns (table : t) (cols : list Column.t) : t := {|
  database := database table;
  name := name table;
  engine := engine table;
  create_table_query := create_table_query table;
  dependencies_database := dependencies_database table;
  dependencies_table := dependencies_table table;
  engine_full := engine_full table;
  sorting_key := sorting_key table;
  primary_key := primary_key table;
  total_rows := total_rows table;
  total_bytes := total_bytes table;
  total_bytes_uncompressed := total_bytes_uncompressed table;
  parts := parts table;
  active_parts := active_parts table;
  total_marks := total_marks table;
  comment := comment table;
  columns := cols
|}.
End Table.

(** ** main.py *)

Module Main.

(** The truth value of an optional string: [None] and the empty string are
    false. *)
Definition truthy (s : option string) : bool :=
  match s with
  | Some (String _ _) => true
  | Some EmptyString | None => false
  end.

Definition optional_str (s : option string) : value :=
  match s with
  | Some s' => VStr s'
  | None => VNone
  end.

Definition tables_query_base : string := "
        SELECT 
            database, 
            name,
            engine, 
            create_table_query, 
            dependencies_database, 
            dependencies_table, 
            engine_full, 
            sorting_key, 
            primary_key, 
            total_rows, 
            total_bytes, 
            total_bytes_uncompressed, 
            parts, 
            active_parts, 
            total_marks, 
            comment 
        FROM 
            system.tables 
        WHERE 
            database = %(database)s
    ".

Definition like_clause : string := " AND name LIKE %(like)s".

Definition not_like_clause : string := " AND name NOT LIKE %(not_like)s".

Definition columns_query : string := "
            SELECT 
                database, 
                table, 
                name, 
                type AS column_type, 
                default_kind, 
                default_expression, 
                comment 
            FROM 
                system.columns 
            WHERE 
                database = %(database)s AND table = %(table)s
            ".

(** The query text of [list_tables]. *)
Definition tables_query (like not_like : option string) : string :=
  let query := tables_query_base in
  let query := if truthy like then String.append query like_clause else query in
  if truthy not_like then String.append query not_like_clause else query.

Section Tools.
(** The constructors of the two schemas (their validation is pydantic's),
    the module state, and [uuid n], the session id drawn for the n-th
    cursor the call creates. *)
Variable Table_cls : row -> result Table.t.
Variable Column_cls : row -> result Column.t.
Variable g : Globals.
Variable uuid : nat -> string.

(** The [for table in tables] loop of [list_tables]; [n] cursors were
    created before it reaches [tables]. *)
Fixpoint fill_columns (database : string) (n : nat) (tables : list Table.t)
    : result (list Table.t) :=
  match tables with
  | [] => Ok []
  | table :: tables' =>
      match db_fetchall Column_cls g (uuid n) columns_query
              (Some [("database", VStr database); ("table", VStr (Table.name table))]) with
      | Raise e => Raise e
      | Ok cols =>
          match fill_columns database (S n) tables' with
          | Raise e => Raise e
          | Ok filled => Ok (Table.set_columns table cols :: filled)
          end
      end
  end.

Definition list_tables (database : string) (like not_like : option string)
    : result (list Table.t) :=
  match db_fetchall Table_cls g (uuid 0) (tables_query like not_like)
          (Some [("database", VStr database); ("like", optional_str like);
                 ("not_like", optional_str not_like)]) with
  | Raise e => Raise e
  | Ok tables => fill_columns database 1 tables
  end.

End Tools.

End Main.

(** ** Instances the statements below are run on *)

(** A schema that admits every mapping and keeps it as it is: it shows the
    keyword arguments [from_row] hands to the constructor. *)
Definition AnyRecord : row -> result row := Ok.

(** A server holding one table of two rows; a query that names
    [progress] is answered by the progress marker alone, and [missing]
    fails in the driver. *)
Definition sample_rows : list row :=
  [[("name", VStr "default"); ("engine", VStr "Atomic")];
   [("name", VStr "system"); ("engine", VStr "Atomic")]].

Definition sample_query (query : string) (args : option (dict value))
    (settings : dict value) : result QueryResult :=
  if String.eqb query "progress" then
    Ok {| column_names := ["total_rows_to_read"];
          named_results := [[("total_rows_to_read", VInt 2)]] |}
  else if String.eqb query "missing" then
    Raise (DriverError "Table default.missing does not exist")
  else if String.eqb query "nothing" then
    Ok {| column_names := ["name"; "engine"]; named_results := [] |}
  else Ok {| column_names := ["name"; "engine"]; named_results := sample_rows |}.

Definition sample_env : Env := {|
  clickhouse_config := clickhouse_config_defaults;
  get_async_client := fun pm _ _ _ =>
    Ok {| client_pool_mgr := pm; client_query := sample_query |}
|}.

(** A serving lifetime that opens a connection pool to the host and runs one
    [db_fetchall]. *)
Definition sample_body (yielded : option nat) (g : Globals)
    : result (list row) * Globals :=
  let g' := {| pools := match yielded with
                        | Some a => alter (fun pm =>
                            {| pm_maxsize := pm_maxsize pm; pm_num_pools := pm_num_pools pm;
                               pm_retries := pm_retries pm; pm_verify := pm_verify pm;
                               pm_pools := "localhost" :: pm_pools pm |}) a (pools g)
                        | None => pools g
                        end;
               http_pool := http_pool g; http_client := http_client g |} in
  (db_fetchall AnyRecord g' "5c0c3a2e" "SELECT name, engine FROM system.databases" None, g').

(** A serving lifetime that ends with the driver's exception. *)
Definition sample_failing_body (yielded : option nat) (g : Globals)
    : result (list row) * Globals :=
  (db_fetchall AnyRecord g "5c0c3a2e" "missing" None, g).




(** Lenient constructors for the two schemas: they read the fields the
    sample server returns and leave the others empty. *)
Definition sample_Table_cls (r : row) : result Table.t :=
  match dict_get "name" r, dict_get "engine" r with
  | Some (VStr n), Some (VStr e) =>
      Ok {| Table.database := "default"; Table.name := n; Table.engine := e;
            Table.create_table_query := ""; Table.dependencies_database := [];
            Table.dependencies_table := []; Table.engine_full := e;
            Table.sorting_key := ""; Table.primary_key := "";
            Table.total_rows := None; Table.total_bytes := None;
            Table.total_bytes_uncompressed := None; Table.parts := None;
            Table.active_parts := None; Table.total_marks := None;
            Table.comment := ""; Table.columns := [] |}
  | _, _ => Raise (ValidationError "Table")
  end.

Definition sample_Column_cls (r : row) : result Column.t :=
  match dict_get "name" r with
  | Some (VStr n) =>
      Ok {| Column.database := "default"; Column.table := ""; Column.name := n;
            Column.column_type := "String"; Column.default_kind := None;
            Column.default_expression := None; Column.comment := None |}
  | _ => Raise (ValidationError "Column")
  end.

(** A columns schema that no row satisfies. *)
Definition sample_failing_Column_cls (r : row) : result Column.t :=
  Raise (ValidationError "Column").

Definition sample_uuid (n : nat) : string :=
  String (Ascii.ascii_of_nat (97 + n)) "-5c0c3a2e".

Definition sample_globals : Globals :=
  {| pools := []; http_pool := None;
     http_client := Some {| client_pool_mgr := None; client_query := sample_query |} |}.

(** * Properties *)

(** ** Strings *)

Section Strings.
Variable sep : ascii.

Lemma str_contains_count (s : string) :
  str_contains sep s = false <-> str_count s sep = 0.
Proof.
  induction s as [|a s IH]; simpl; [done|].
  destruct (Ascii.eqb a sep); simpl; [split; [done|lia] | exact IH].
Qed.

Lemma str_split_length (s : string) :
  length (str_split s sep) = S (str_count s sep).
Proof.
  induction s as [|a s IH]; simpl; [done|].
  destruct (Ascii.eqb a sep); simpl; [by rewrite IH|].
  destruct (str_split s sep); simpl in *; lia.
Qed.

Lemma str_split_one (s : string) :
  str_contains sep s = false -> str_split s sep = [s].
Proof.
  induction s as [|a s IH]; simpl; [done|].
  destruct (Ascii.eqb a sep); [done|].
  intros H. by rewrite (IH H).
Qed.

Lemma str_split_one_inv (s p : string) :
  str_split s sep = [p] -> s = p /\ str_contains sep s = false.
Proof.
  revert p. induction s as [|a s IH]; simpl; intros p H.
  - by inversion H.
  - destruct (Ascii.eqb a sep) eqn:E.
    + inversion H as [[Hp Hs]]. pose proof (str_split_length s) as L.
      rewrite Hs in L. discriminate L.
    + destruct (str_split s sep) as [|q qs] eqn:Es.
      * pose proof (str_split_length s) as L. rewrite Es in L. discriminate L.
      * inversion H; subst. destruct (IH q eq_refl) as [-> ->]. done.
Qed.

(** A key splits in two exactly when it is [parent], the separator and
    [child], neither holding a separator. *)
Lemma str_split_two (s p c : string) :
  str_split s sep = [p; c] <->
  s = String.append p (String sep c) /\
  str_contains sep p = false /\ str_contains sep c = false.
Proof.
  revert p. induction s as [|a s IH]; intros p; simpl.
  - split; [done|]. intros (H & _ & _). destruct p; discriminate H.
  - destruct (Ascii.eqb a sep) eqn:E.
    + apply Ascii.eqb_eq in E. subst a. split.
      * intros H. inversion H as [[Hp Hs]].
        destruct (str_split_one_inv _ _ Hs) as [-> Hc]. done.
      * intros (H & Hp & Hc). destruct p as [|b p]; simpl in *.
        -- inversion H; subst. by rewrite (str_split_one _ Hc).
        -- inversion H; subst. by rewrite Ascii.eqb_refl in Hp.
    + destruct (str_split s sep) as [|q qs] eqn:Es.
      * pose proof (str_split_length s) as L. rewrite Es in L. discriminate L.
      * split.
        -- intros H. inversion H; subst.
           destruct (proj1 (IH q) eq_refl) as (-> & Hq & Hc).
           simpl. by rewrite E.
        -- intros (H & Hp & Hc). destruct p as [|b p]; simpl in *.
           ++ inversion H; subst. by rewrite Ascii.eqb_refl in E.
           ++ inversion H; subst. rewrite E in Hp.
              assert (q :: qs = [p; c]) as Hq by (apply IH; done).
              by inversion Hq.
Qed.

Lemma str_count_one_split (s : string) :
  str_count s sep = 1 -> exists p c, str_split s sep = [p; c].
Proof.
  intros H. pose proof (str_split_length s) as L. rewrite H in L.
  destruct (str_split s sep) as [|p [|c [|]]]; simpl in L; try discriminate L.
  by exists p, c.
Qed.

Lemma str_removeprefix_contains (c : ascii) (s : string) :
  str_contains sep s = false -> str_contains sep (str_removeprefix s c) = false.
Proof.
  destruct s as [|a s]; simpl; [done|].
  destruct (Ascii.eqb a c); [|done].
  destruct (Ascii.eqb a sep); [done|done].
Qed.

End Strings.

(** ** Dictionaries as finite maps *)

Section DictFacts.
Context {V : Type}.
Implicit Types (d : dict V) (k : string) (v : V).

Lemma dict_get_map k d : dict_get k d = dict_map d !! k.
Proof.
  induction d as [|[k' v'] d IH]; simpl; [done|].
  unfold dict_map in *. simpl.
  destruct (String.eqb_spec k k') as [->|Hne].
  - by rewrite lookup_insert_eq.
  - by rewrite lookup_insert_ne.
Qed.

Lemma dict_map_set k v d : dict_map (dict_set k v d) = <[k:=v]> (dict_map d).
Proof.
  induction d as [|[k' v'] d IH]; simpl; [done|].
  unfold dict_map in *.
  destruct (String.eqb_spec k k') as [->|Hne]; simpl.
  - by rewrite insert_insert_eq.
  - rewrite IH. by apply insert_insert_ne.
Qed.

Lemma dict_keys_set k v d :
  forall k', k' ∈ dict_keys (dict_set k v d) <-> k' = k \/ k' ∈ dict_keys d.
Proof.
  unfold dict_keys.
  induction d as [|[k0 v0] d IH]; simpl; intros k'.
  - rewrite list_elem_of_singleton, elem_of_nil. tauto.
  - destruct (String.eqb_spec k k0) as [->|Hne]; simpl.
    + rewrite !elem_of_cons. tauto.
    + rewrite !elem_of_cons, IH. tauto.
Qed.

Lemma dict_set_NoDup k v d : NoDup (dict_keys d) -> NoDup (dict_keys (dict_set k v d)).
Proof.
  unfold dict_keys.
  induction d as [|[k0 v0] d IH]; simpl; intros H.
  - apply NoDup_singleton.
  - apply NoDup_cons in H as [Hk0 Hd].
    destruct (String.eqb_spec k k0) as [->|Hne]; simpl.
    + by apply NoDup_cons.
    + apply NoDup_cons. split; [|by apply IH].
      intros Hin. apply (dict_keys_set k v d k0) in Hin as [?|?]; [congruence|done].
Qed.

Lemma dict_pop_keys k v d d' :
  dict_pop k d = Some (v, d') -> forall k', k' ∈ dict_keys d' -> k' ∈ dict_keys d.
Proof.
  unfold dict_keys. revert d'.
  induction d as [|[k0 v0] d IH]; simpl; intros d' H k' Hin; [done|].
  destruct (String.eqb k k0).
  - inversion H; subst. by apply elem_of_cons; right.
  - destruct (dict_pop k d) as [[v1 d1]|]; [|done].
    inversion H; subst. simpl in Hin.
    apply elem_of_cons in Hin as [->|Hin]; [by apply elem_of_cons; left|].
    apply elem_of_cons. right. by eapply IH.
Qed.

Lemma dict_pop_NoDup k v d d' :
  dict_pop k d = Some (v, d') -> NoDup (dict_keys d) -> NoDup (dict_keys d').
Proof.
  revert d'.
  induction d as [|[k0 v0] d IH]; simpl; intros d' H Hnd; [done|].
  apply NoDup_cons in Hnd as [Hk0 Hd].
  destruct (String.eqb k k0).
  - by inversion H; subst.
  - destruct (dict_pop k d) as [[v1 d1]|] eqn:E; [|done].
    inversion H; subst. simpl. apply NoDup_cons. split; [|by eapply IH].
    intros Hin. apply Hk0. by eapply dict_pop_keys.
Qed.

(** On a dictionary (unique keys), [pop] is [delete]. *)
Lemma dict_pop_map k v d d' :
  dict_pop k d = Some (v, d') -> NoDup (dict_keys d) ->
  dict_map d !! k = Some v /\ dict_map d' = delete k (dict_map d).
Proof.
  revert d'. unfold dict_map.
  induction d as [|[k0 v0] d IH]; simpl; intros d' H Hnd; [done|].
  apply NoDup_cons in Hnd as [Hk0 Hd].
  destruct (String.eqb_spec k k0) as [->|Hne].
  - inversion H; subst. rewrite lookup_insert_eq, delete_insert_eq.
    split; [done|]. symmetry. apply delete_id.
    by apply not_elem_of_list_to_map_1.
  - destruct (dict_pop k d) as [[v1 d1]|] eqn:E; [|done].
    inversion H; subst. destruct (IH d1 eq_refl Hd) as [Hv Hm].
    rewrite lookup_insert_ne by done. split; [done|].
    simpl. rewrite Hm. by rewrite delete_insert_ne.
Qed.

Lemma dict_pop_is_Some k d :
  is_Some (dict_map d !! k) -> exists v d', dict_pop k d = Some (v, d').
Proof.
  unfold dict_map.
  induction d as [|[k0 v0] d IH]; simpl; intros H.
  - rewrite lookup_empty in H. by destruct H.
  - destruct (String.eqb_spec k k0) as [->|Hne]; [by eauto|].
    rewrite lookup_insert_ne in H by done.
    destruct (IH H) as (v & d' & ->). by eauto.
Qed.

Lemma dict_map_keys k d : k ∈ dict_keys d <-> is_Some (dict_map d !! k).
Proof.
  unfold dict_map, dict_keys. split.
  - intros H. destruct (list_to_map d !! k) eqn:E; [done|].
    by apply not_elem_of_list_to_map_2 in E.
  - intros [v H]. apply elem_of_list_to_map_2 in H.
    apply list_elem_of_fmap. by exists (k, v).
Qed.

Lemma dict_update_map (src : dict V) d :
  NoDup (dict_keys src) ->
  dict_map (dict_update src d) = dict_map src ∪ dict_map d.
Proof.
  unfold dict_update. revert d.
  induction src as [|[k v] src IH]; simpl; intros d H.
  - unfold dict_map at 2. simpl. by rewrite (left_id_L ∅ (∪)).
  - apply NoDup_cons in H as [Hk Hs].
    rewrite (IH _ Hs), dict_map_set.
    unfold dict_map at 3. simpl. fold (dict_map src).
    rewrite <- insert_union_l.
    symmetry. apply insert_union_r.
    apply eq_None_not_Some. intros Hsome. by apply dict_map_keys in Hsome.
Qed.

End DictFacts.

(** ** The loop of [from_row], one key at a time *)

Section Mapper.
Import BaseStructure.
Implicit Types (items r : row) (dct : dict (dict value)) (key : string) (v : value).

Lemma dict_pop_keys_iff {V} (k : string) (x : V) (d d' : dict V) :
  dict_pop k d = Some (x, d') -> NoDup (dict_keys d) ->
  forall k', k' ∈ dict_keys d' <-> k' ∈ dict_keys d /\ k' <> k.
Proof.
  intros H Hnd k'. destruct (dict_pop_map _ _ _ _ H Hnd) as [Hv Hm].
  rewrite !dict_map_keys, Hm.
  destruct (decide (k = k')) as [->|Hne].
  - rewrite lookup_delete_eq. split; [by intros [? ?]|by intros [_ ?]].
  - rewrite lookup_delete_ne by done. split; [by intros ?|by intros [? _]].
Qed.

Lemma from_row_loop_plain key v items r dct :
  str_startswith key sigil = false -> str_contains separator key = false ->
  from_row_loop ((key, v) :: items) r dct = from_row_loop items r dct.
Proof. intros H1 H2. simpl. by rewrite H1, H2. Qed.

Lemma from_row_loop_sigil key v items r dct x r0 :
  str_startswith key sigil = true -> str_contains separator key = false ->
  dict_pop key r = Some (x, r0) ->
  from_row_loop ((key, v) :: items) r dct
  = from_row_loop items (dict_set (str_removeprefix key sigil) x r0) dct.
Proof. intros H1 H2 H3. simpl. by rewrite H1, H2, H3. Qed.

Lemma from_row_loop_dotted key v items r dct p c x r0 :
  str_startswith key sigil = false -> str_split key separator = [p; c] ->
  dict_pop key r = Some (x, r0) ->
  from_row_loop ((key, v) :: items) r dct
  = from_row_loop items r0 (setdefault_setitem p c v dct).
Proof.
  intros H1 H2 H3.
  assert (str_contains separator key = true) as H4.
  { destruct (str_contains separator key) eqn:E; [done|].
    rewrite (str_split_one _ _ E) in H2. discriminate H2. }
  simpl. by rewrite H1, H4, H2, H3.
Qed.

(** A step that does not raise either leaves [dct] alone (no separator in
    the key) or files the value under the two pieces of the key. *)
Lemma from_row_loop_cons_Ok key v items r dct dct' r' :
  from_row_loop ((key, v) :: items) r dct = (Ok dct', r') ->
  exists r1,
    (str_contains separator key = false /\
     from_row_loop items r1 dct = (Ok dct', r')) \/
    (exists p c, str_split key separator = [p; c] /\
     from_row_loop items r1 (setdefault_setitem p c v dct) = (Ok dct', r')).
Proof.
  simpl. intros H.
  destruct (str_startswith key sigil).
  - destruct (dict_pop key r) as [[x r0]|]; [|discriminate H].
    destruct (str_contains separator key).
    + destruct (str_split key separator) as [|p [|c [|]]]; try discriminate H.
      destruct (dict_pop key _) as [[y r2]|]; [|discriminate H].
      exists r2. right. by exists p, c.
    + eexists. left. by split.
  - destruct (str_contains separator key).
    + destruct (str_split key separator) as [|p [|c [|]]]; try discriminate H.
      destruct (dict_pop key r) as [[y r2]|]; [|discriminate H].
      exists r2. right. by exists p, c.
    + exists r. left. by split.
Qed.

(** *** The nested mappings *)

Lemma setdefault_setitem_keys p c v dct :
  forall q, q ∈ dict_keys (setdefault_setitem p c v dct) <-> q = p \/ q ∈ dict_keys dct.
Proof.
  intros q. unfold setdefault_setitem.
  destruct (dict_get p dct); apply dict_keys_set.
Qed.

Lemma setdefault_setitem_NoDup p c v dct :
  NoDup (dict_keys dct) -> NoDup (dict_keys (setdefault_setitem p c v dct)).
Proof.
  intros H. unfold setdefault_setitem.
  destruct (dict_get p dct); by apply dict_set_NoDup.
Qed.

Lemma setdefault_setitem_here p c v dct :
  exists d, dict_get p (setdefault_setitem p c v dct) = Some d /\ dict_get c d = Some v.
Proof.
  unfold setdefault_setitem.
  destruct (dict_get p dct) as [d|];
    [exists (dict_set c v d)|exists (dict_set c v [])];
    rewrite (dict_get_map p), (dict_get_map c), !dict_map_set, !lookup_insert_eq; done.
Qed.

Lemma setdefault_setitem_other p c v dct q b w :
  (exists d, dict_get q dct = Some d /\ dict_get b d = Some w) ->
  q <> p \/ b <> c ->
  exists d, dict_get q (setdefault_setitem p c v dct) = Some d /\ dict_get b d = Some w.
Proof.
  intros (d & Hq & Hb) Hne. unfold setdefault_setitem.
  destruct (decide (q = p)) as [->|Hqp].
  - destruct Hne as [?|Hbc]; [done|]. rewrite Hq.
    exists (dict_set c v d).
    rewrite (dict_get_map p), (dict_get_map b), !dict_map_set, lookup_insert_eq.
    split; [done|]. rewrite lookup_insert_ne by done. by rewrite <- dict_get_map.
  - exists d. split; [|done].
    destruct (dict_get p dct); rewrite dict_get_map, dict_map_set,
      lookup_insert_ne by done; by rewrite <- dict_get_map.
Qed.

Lemma from_row_loop_nested items :
  forall r dct dct' r',
    NoDup (dict_keys items) ->
    from_row_loop items r dct = (Ok dct', r') ->
    (NoDup (dict_keys dct) -> NoDup (dict_keys dct')) /\
    (forall q, q ∈ dict_keys dct' ->
       q ∈ dict_keys dct \/ str_contains separator q = false) /\
    (forall q b w,
       (exists d, dict_get q dct = Some d /\ dict_get b d = Some w) ->
       String.append q (String separator b) ∉ dict_keys items ->
       exists d, dict_get q dct' = Some d /\ dict_get b d = Some w) /\
    (forall k w q b,
       (k, w) ∈ items -> str_split k separator = [q; b] ->
       exists d, dict_get q dct' = Some d /\ dict_get b d = Some w).
Proof.
  induction items as [|[key v] items IH]; intros r dct dct' r' Hnd H.
  - simpl in H. inversion H; subst. repeat split; try done.
    + by left.
    + intros k w q b Hin. by apply elem_of_nil in Hin.
  - simpl in Hnd. apply NoDup_cons in Hnd as [Hkey Hnd].
    apply from_row_loop_cons_Ok in H as [r1 [[Hc H]|(p & c & Hs & H)]].
    + destruct (IH _ _ _ _ Hnd H) as (I1 & I2 & I3 & I4).
      repeat split; try done.
      * intros q b w Hd Hnin. apply I3; [done|].
        intros Hin. apply Hnin. simpl. by apply elem_of_cons; right.
      * intros k w q b Hin Hs. apply elem_of_cons in Hin as [Heq|Hin].
        -- inversion Heq; subst. rewrite (str_split_one _ _ Hc) in Hs. discriminate Hs.
        -- by eapply I4.
    + destruct (IH _ _ _ _ Hnd H) as (I1 & I2 & I3 & I4).
      pose proof (proj1 (str_split_two _ _ _ _) Hs) as (Hkey_eq & Hp & Hcc).
      repeat split.
      * intros Hd. apply I1. by apply setdefault_setitem_NoDup.
      * intros q Hq. destruct (I2 q Hq) as [Hq'|?]; [|by right].
        apply setdefault_setitem_keys in Hq' as [->|?]; [by right|by left].
      * intros q b w Hd Hnin. apply I3.
        -- apply setdefault_setitem_other; [done|].
           destruct (decide (q = p)) as [->|?]; [|by left].
           destruct (decide (b = c)) as [->|?]; [|by right].
           exfalso. apply Hnin. simpl. apply elem_of_cons. left. by rewrite Hkey_eq.
        -- intros Hin. apply Hnin. simpl. by apply elem_of_cons; right.
      * intros k w q b Hin Hs'. apply elem_of_cons in Hin as [Heq|Hin].
        -- inversion Heq; subst k w. rewrite Hs in Hs'. inversion Hs'; subst q b.
           apply I3; [apply setdefault_setitem_here|].
           by rewrite <- Hkey_eq.
        -- by eapply I4.
Qed.

(** *** The caller's row *)

Lemma from_row_loop_unchanged items :
  (forall k, k ∈ dict_keys items ->
     str_startswith k sigil = false /\ str_contains separator k = false) ->
  forall r dct, from_row_loop items r dct = (Ok dct, r).
Proof.
  induction items as [|[key v] items IH]; intros H r dct; [done|].
  destruct (H key) as [H1 H2]; [simpl; by apply elem_of_cons; left|].
  rewrite from_row_loop_plain by done. apply IH.
  intros k Hk. apply H. simpl. by apply elem_of_cons; right.
Qed.

(** When every key holding a separator holds exactly one and carries no
    sigil, the loop ends without raising, and a key of the final row that
    holds a separator was in the row before and is not among the keys still
    to be visited. *)
Lemma from_row_loop_row items :
  forall r dct,
    NoDup (dict_keys items) -> NoDup (dict_keys r) ->
    (forall k, k ∈ dict_keys items -> k ∈ dict_keys r) ->
    (forall k, k ∈ dict_keys items -> str_contains separator k = true ->
       str_startswith k sigil = false /\ str_count k separator = 1) ->
    exists dct' r',
      from_row_loop items r dct = (Ok dct', r') /\
      NoDup (dict_keys r') /\
      (forall k, str_contains separator k = true -> k ∈ dict_keys r' ->
         k ∈ dict_keys r /\ k ∉ dict_keys items).
Proof.
  induction items as [|[key v] items IH]; intros r dct Hnd Hr Hin Hgood.
  - exists dct, r. split; [done|]. split; [done|].
    intros k _ Hk. split; [done|]. intros Hin'. by apply elem_of_nil in Hin'.
  - simpl in Hnd. apply NoDup_cons in Hnd as [Hkey Hnd].
    assert (key ∈ dict_keys r) as Hkr by (apply Hin; simpl; by apply elem_of_cons; left).
    assert (forall k, k ∈ dict_keys items -> k ∈ dict_keys (V:=value) ((key, v) :: items)) as Hsub
      by (intros k Hk; simpl; by apply elem_of_cons; right).
    destruct (dict_pop_is_Some key r) as (x & r0 & Hpop); [by apply dict_map_keys|].
    pose proof (dict_pop_keys_iff _ _ _ _ Hpop Hr) as Hr0.
    pose proof (dict_pop_NoDup _ _ _ _ Hpop Hr) as Hnd0.
    destruct (str_contains separator key) eqn:Hdot.
    + (* a key with one separator *)
      destruct (Hgood key) as [Hsig Hcnt]; [simpl; by apply elem_of_cons; left|done|].
      destruct (str_count_one_split _ _ Hcnt) as (p & c & Hs).
      rewrite (from_row_loop_dotted _ _ _ _ _ _ _ _ _ Hsig Hs Hpop).
      destruct (IH r0 (setdefault_setitem p c v dct)) as (dct' & r' & E & Hnd' & Hrow);
        [done|done| |by auto|].
      { intros k Hk. apply Hr0. split; [by auto|]. intros ->. done. }
      exists dct', r'. split; [done|]. split; [done|].
      intros k Hk Hkr'. destruct (Hrow k Hk Hkr') as [Hk0 Hk1].
      apply Hr0 in Hk0 as [Hk0 Hne]. split; [done|].
      simpl. intros Hin'. by apply elem_of_cons in Hin' as [->|Hin'].
    + destruct (str_startswith key sigil) eqn:Hsig.
      * (* a key with the sigil and no separator *)
        rewrite (from_row_loop_sigil _ _ _ _ _ _ _ Hsig Hdot Hpop).
        set (k' := str_removeprefix key sigil).
        destruct (IH (dict_set k' x r0) dct) as (dct' & r' & E & Hnd' & Hrow);
          [done|by apply dict_set_NoDup| |by auto|].
        { intros k Hk. apply dict_keys_set. right. apply Hr0.
          split; [by auto|]. intros ->. done. }
        assert (forall k, str_contains separator k = true -> k ∈ dict_keys r' ->
                  k ∈ dict_keys r0 /\ k ∉ dict_keys items) as Hrow'.
        { intros k Hk Hkr'. destruct (Hrow k Hk Hkr') as [Hk1 Hk2]. split; [|done].
          apply dict_keys_set in Hk1 as [->|?]; [|done].
          unfold k' in Hk. by rewrite str_removeprefix_contains in Hk. }
        exists dct', r'. split; [done|]. split; [done|].
        intros k Hk Hkr'. destruct (Hrow' k Hk Hkr') as [Hk0 Hk1].
        apply Hr0 in Hk0 as [Hk0 Hne]. split; [done|].
        simpl. intros Hin'. by apply elem_of_cons in Hin' as [->|Hin'].
      * (* a plain key *)
        rewrite (from_row_loop_plain _ _ _ _ _ Hsig Hdot).
        destruct (IH r dct) as (dct' & r' & E & Hnd' & Hrow); [done|done|by auto|by auto|].
        exists dct', r'. split; [done|]. split; [done|].
        intros k Hk Hkr'. destruct (Hrow k Hk Hkr') as [Hk0 Hk1]. split; [done|].
        simpl. intros Hin'. apply elem_of_cons in Hin' as [->|Hin']; [congruence|done].
Qed.

Lemma merge_nested_map dct r :
  NoDup (dict_keys dct) ->
  dict_map (merge_nested dct r) = (VDict <$> dict_map dct) ∪ dict_map r.
Proof.
  intros H. unfold merge_nested.
  assert (dict_keys (map (fun pd => (fst pd, VDict (snd pd))) dct) = dict_keys dct) as Hk.
  { unfold dict_keys. rewrite map_map. done. }
  rewrite dict_update_map by (by rewrite Hk). f_equal.
  unfold dict_map. clear. induction dct as [|[p d] dct IH]; simpl.
  - by rewrite fmap_empty.
  - by rewrite fmap_insert, IH.
Qed.

Lemma str_count_append (sep : ascii) (p c : string) :
  str_count (String.append p (String sep c)) sep = str_count p sep + 1 + str_count c sep.
Proof.
  induction p as [|a p IH]; simpl.
  - by rewrite Ascii.eqb_refl.
  - rewrite IH. lia.
Qed.

Lemma dict_get_elem_of {V} (k : string) (x : V) (d : dict V) :
  dict_get k d = Some x -> (k, x) ∈ d /\ k ∈ dict_keys d.
Proof.
  rewrite dict_get_map. intros H. split.
  - by apply elem_of_list_to_map_2 in H.
  - apply dict_map_keys. by rewrite H.
Qed.

(** A key with two separators or more stops the loop, at that key or at an
    earlier one. *)
Lemma from_row_loop_raises items k :
  k ∈ dict_keys items -> 2 <= str_count k separator ->
  forall r dct, exists e r',
    from_row_loop items r dct = (Raise e, r') /\
    (e = unpack_too_many \/ exists k', e = KeyError k').
Proof.
  induction items as [|[key v] items IH]; intros Hk Hcnt r dct.
  - by apply elem_of_nil in Hk.
  - assert (forall r1 dct1, k = key \/ k ∈ dict_keys items ->
              str_count key separator <= 1 ->
              exists e r', from_row_loop items r1 dct1 = (Raise e, r') /\
                (e = unpack_too_many \/ exists k', e = KeyError k')) as Hnext.
    { intros r1 dct1 [->|Hin] Hle; [lia|by apply IH]. }
    simpl in Hk. apply elem_of_cons in Hk. clear IH.
    pose proof (str_split_length separator key) as Hlen.
    pose proof (str_contains_count separator key) as Hcc.
    simpl.
    destruct (str_startswith key sigil);
      [destruct (dict_pop key r) as [[x r0]|]; [|by eauto 6]|];
      (destruct (str_contains separator key);
       [destruct (str_split key separator) as [|p [|c [|]]] eqn:Hs; simpl in Hlen;
        [discriminate Hlen
        |assert (true = false) as Habs by (apply Hcc; lia); discriminate Habs
        |destruct (dict_pop key _) as [[y r2]|];
         [apply Hnext; [done|lia]|by eauto 6]
        |by eauto 6]
       |apply Hnext; [done|]; destruct Hcc as [Hcc _]; rewrite Hcc by done; lia]).
Qed.

(** *** Keys with the sigil *)

Lemma str_removeprefix_ne (c : ascii) (s : string) :
  str_startswith s c = true -> str_removeprefix s c <> s.
Proof.
  destruct s as [|a s]; simpl; [done|]. intros ->.
  intros H. apply (f_equal String.length) in H. simpl in H. lia.
Qed.

(** One step either raises, or goes on with a row whose keys are still
    unique; it cannot go on from a key that has both the sigil and the
    separator. *)
Lemma from_row_loop_step key v items r dct :
  NoDup (dict_keys r) ->
  (exists e r', from_row_loop ((key, v) :: items) r dct = (Raise e, r')) \/
  (exists r1 dct1,
     from_row_loop ((key, v) :: items) r dct = from_row_loop items r1 dct1 /\
     NoDup (dict_keys r1) /\
     (str_startswith key sigil = true -> str_contains separator key = false)).
Proof.
  intros Hnd. simpl.
  destruct (str_startswith key sigil) eqn:Hsig.
  - destruct (dict_pop key r) as [[x r0]|] eqn:Hpop; [|left; by eauto].
    pose proof (dict_pop_NoDup _ _ _ _ Hpop Hnd) as Hnd0.
    pose proof (dict_pop_keys_iff _ _ _ _ Hpop Hnd) as Hr0.
    destruct (str_contains separator key).
    + left. destruct (str_split key separator) as [|p [|c [|]]]; try by eauto.
      destruct (dict_pop key (dict_set _ _ _)) as [[y r2]|] eqn:Hpop2; [|by eauto].
      exfalso.
      apply dict_pop_map in Hpop2 as [Hy _]; [|by apply dict_set_NoDup].
      assert (key ∈ dict_keys (dict_set (str_removeprefix key sigil) x r0)) as Hin
        by (apply dict_map_keys; by rewrite Hy).
      apply dict_keys_set in Hin as [Heq|Hin].
      * by apply (str_removeprefix_ne sigil key).
      * apply Hr0 in Hin as [_ Hne]. done.
    + right. eexists _, _. split; [done|]. split; [by apply dict_set_NoDup|done].
  - destruct (str_contains separator key).
    + destruct (str_split key separator) as [|p [|c [|]]]; try (left; by eauto).
      destruct (dict_pop key r) as [[y r2]|] eqn:Hpop; [|left; by eauto].
      right. eexists _, _. split; [done|]. split; [by eapply dict_pop_NoDup|done].
    + right. eexists _, _. split; [done|]. split; [done|done].
Qed.

Lemma from_row_loop_sigil_separator items k :
  k ∈ dict_keys items ->
  str_startswith k sigil = true -> str_contains separator k = true ->
  forall r dct, NoDup (dict_keys r) ->
    exists e r', from_row_loop items r dct = (Raise e, r').
Proof.
  intros Hk Hsig Hdot.
  induction items as [|[key v] items IH]; intros r dct Hnd.
  - by apply elem_of_nil in Hk.
  - destruct (from_row_loop_step key v items r dct Hnd)
      as [Hraise|(r1 & dct1 & -> & Hnd1 & Hkey)]; [done|].
    simpl in Hk. apply elem_of_cons in Hk as [->|Hk].
    + rewrite Hkey in Hdot by done. discriminate Hdot.
    + by apply IH.
Qed.

Lemma from_row_loop_plain_prefix items1 items2 r dct :
  (forall k, k ∈ dict_keys items1 ->
     str_startswith k sigil = false /\ str_contains separator k = false) ->
  from_row_loop (items1 ++ items2) r dct = from_row_loop items2 r dct.
Proof.
  induction items1 as [|[key v] items1 IH]; intros H; [done|].
  destruct (H key) as [H1 H2]; [simpl; by apply elem_of_cons; left|].
  simpl app. rewrite from_row_loop_plain by done. apply IH.
  intros k Hk. apply H. simpl. by apply elem_of_cons; right.
Qed.

Lemma dict_pop_middle {V} (k : string) (x : V) (d1 d2 : dict V) :
  k ∉ dict_keys d1 -> dict_pop k (d1 ++ (k, x) :: d2) = Some (x, d1 ++ d2).
Proof.
  induction d1 as [|[k0 v0] d1 IH]; simpl; intros H.
  - by rewrite String.eqb_refl.
  - apply not_elem_of_cons in H as [Hne Hnin].
    destruct (String.eqb_spec k k0) as [?|_]; [done|]. by rewrite IH.
Qed.

Lemma dict_set_fresh {V} (k : string) (x : V) (d : dict V) :
  k ∉ dict_keys d -> dict_set k x d = d ++ [(k, x)].
Proof.
  induction d as [|[k0 v0] d IH]; simpl; intros H; [done|].
  apply not_elem_of_cons in H as [Hne Hnin].
  destruct (String.eqb_spec k k0) as [?|_]; [done|]. by rewrite IH.
Qed.

End Mapper.

(** ** Claims on [BaseStructure.from_row] *)

(** C3 (the code departs from the claim): the key ["@a.b"] begins with the
    sigil, yet the separator test, the split and the second [pop] of
    [from_row] still read the key with its sigil.  The row with that key
    raises [KeyError], while the same row with the key ["a.b"] is mapped to
    the nested object [a] with field [b]. *)
Theorem from_row_sigil_dotted_key :
  BaseStructure.from_row AnyRecord [("@a.b", VInt 1)]
  = (Raise (KeyError "@a.b"), [("a.b", VInt 1)]) /\
  BaseStructure.from_row AnyRecord [("a.b", VInt 1)]
  = (Ok [("a", VDict [("b", VInt 1)])], [("a", VDict [("b", VInt 1)])]).
Proof. split; reflexivity. Qed.

(** X6: Every row with a key that has both the sigil and the separator makes
    [from_row] raise. *)
Lemma from_row_sigil_separator_raises {T} (cls : row -> result T) (r : row) (k : string) :
  NoDup (dict_keys r) -> k ∈ dict_keys r ->
  str_startswith k sigil = true -> str_contains separator k = true ->
  exists e r', BaseStructure.from_row cls r = (Raise e, r').
Proof.
  intros Hnd Hk Hsig Hdot.
  destruct (from_row_loop_sigil_separator r k Hk Hsig Hdot r [] Hnd) as (e & r' & E).
  exists e, r'. unfold BaseStructure.from_row. by rewrite E.
Qed.

(** Where the sigil key has no separator and the other keys are plain, the
    code does what C3 says: the row with ["@" ++ k] and the row with [k]
    reach the constructor with the same entries (the renamed one comes
    last in the first mapping). *)
Lemma from_row_single_sigil_key {T} (cls : row -> result T) (r1 r2 : row)
    (k : string) (v : value) :
  (forall j, j ∈ dict_keys (r1 ++ r2) ->
     str_startswith j sigil = false /\ str_contains separator j = false) ->
  str_startswith k sigil = false -> str_contains separator k = false ->
  k ∉ dict_keys (r1 ++ r2) ->
  BaseStructure.from_row cls (r1 ++ (String sigil k, v) :: r2)
  = (cls (r1 ++ r2 ++ [(k, v)]), r1 ++ r2 ++ [(k, v)]) /\
  BaseStructure.from_row cls (r1 ++ (k, v) :: r2)
  = (cls (r1 ++ (k, v) :: r2), r1 ++ (k, v) :: r2) /\
  r1 ++ r2 ++ [(k, v)] ≡ₚ r1 ++ (k, v) :: r2.
Proof.
  intros Hplain Hsig Hdot Hfresh.
  assert (forall j, j ∈ dict_keys r1 ->
            str_startswith j sigil = false /\ str_contains separator j = false) as Hp1.
  { intros j Hj. apply Hplain. unfold dict_keys in *. rewrite map_app.
    apply elem_of_app. by left. }
  assert (forall j, j ∈ dict_keys r2 ->
            str_startswith j sigil = false /\ str_contains separator j = false) as Hp2.
  { intros j Hj. apply Hplain. unfold dict_keys in *. rewrite map_app.
    apply elem_of_app. by right. }
  split; [|split].
  - unfold BaseStructure.from_row.
    rewrite from_row_loop_plain_prefix by done.
    assert (String sigil k ∉ dict_keys r1) as Hnin.
    { intros Hin. destruct (Hp1 _ Hin) as [Hs _]. discriminate Hs. }
    rewrite (from_row_loop_sigil _ _ _ _ _ v (r1 ++ r2)).
    + change (str_removeprefix (String sigil k) sigil) with k.
      rewrite (dict_set_fresh k v (r1 ++ r2) Hfresh).
      rewrite from_row_loop_unchanged by done.
      unfold BaseStructure.merge_nested. simpl. by rewrite <- (assoc_L app).
    + reflexivity.
    + exact Hdot.
    + by apply dict_pop_middle.
  - unfold BaseStructure.from_row. rewrite from_row_loop_unchanged; [done|].
    intros j Hj. unfold dict_keys in Hj. rewrite map_app in Hj. simpl in Hj.
    apply elem_of_app in Hj as [Hj|Hj]; [by apply Hp1|].
    apply elem_of_cons in Hj as [->|Hj]; [done|by apply Hp2].
  - apply Permutation_app_head. symmetry. apply Permutation_cons_append.
Qed.

(** C4, as stated, fails: [from_row] rewrites the row it is given.  After the
    call on a row with the key ["@x"], the caller's row holds ["x"]. *)
Lemma from_row_rewrites_argument :
  snd (BaseStructure.from_row AnyRecord [("@x", VInt 1); ("y", VInt 2)])
  = [("y", VInt 2); ("x", VInt 1)] /\
  dict_get "@x" (snd (BaseStructure.from_row AnyRecord [("@x", VInt 1); ("y", VInt 2)]))
  <> dict_get "@x" [("@x", VInt 1); ("y", VInt 2)].
Proof. split; [reflexivity|discriminate]. Qed.

(** C4 (amended): when no key of the row begins with the sigil or holds the
    separator, [from_row] leaves the caller's row as it was, and the
    constructor receives that very row. *)
Theorem from_row_keeps_plain_row {T} (cls : row -> result T) (r : row) :
  (forall k, k ∈ dict_keys r ->
     str_startswith k sigil = false /\ str_contains separator k = false) ->
  BaseStructure.from_row cls r = (cls r, r).
Proof.
  intros H. unfold BaseStructure.from_row.
  by rewrite (from_row_loop_unchanged r H r []).
Qed.

Lemma from_row_keeps_plain_row_witness :
  BaseStructure.from_row AnyRecord [("name", VStr "default"); ("engine", VStr "Atomic")]
  = (AnyRecord [("name", VStr "default"); ("engine", VStr "Atomic")],
     [("name", VStr "default"); ("engine", VStr "Atomic")]).
Proof.
  apply (from_row_keeps_plain_row AnyRecord).
  intros k Hk. simpl in Hk.
  repeat (apply elem_of_cons in Hk as [->|Hk]; [split; reflexivity|]).
  by apply elem_of_nil in Hk.
Defined.

(** C5, as stated, fails on a row that holds single-separator keys next to a
    key with two separators: [from_row] raises at that key, after the keys
    before it were taken out of the caller's row, and no nested mapping is
    merged back. *)
Lemma from_row_dotted_keys_not_routed :
  BaseStructure.from_row AnyRecord
    [("a.b", VInt 1); ("a.c", VInt 2); ("x.y.z", VInt 3)]
  = (Raise BaseStructure.unpack_too_many, [("x.y.z", VInt 3)]).
Proof. reflexivity. Qed.

(** C5 (amended): take a row in which every key holding the separator holds
    exactly one and does not begin with the sigil.  Then [from_row] does not
    raise before the constructor; in the mapping it hands to the constructor
    (which is also what the caller's row has become) the value of every key
    [parent.child] is found under [parent], in a nested mapping, at
    [child] -- whatever flat value [parent] had --, and no key holding the
    separator is left. *)
Theorem from_row_nests_dotted_keys {T} (cls : row -> result T) (r : row) :
  NoDup (dict_keys r) ->
  (forall k, k ∈ dict_keys r -> str_contains separator k = true ->
     str_startswith k sigil = false /\ str_count k separator = 1) ->
  exists kwargs,
    BaseStructure.from_row cls r = (cls kwargs, kwargs) /\
    (forall parent child v,
       dict_get (String.append parent (String separator child)) r = Some v ->
       exists d, dict_get parent kwargs = Some (VDict d) /\ dict_get child d = Some v) /\
    (forall k, str_contains separator k = true -> dict_get k kwargs = None).
Proof.
  intros Hnd Hgood.
  destruct (from_row_loop_row r r [] Hnd Hnd (fun k H => H) Hgood)
    as (dct & r' & E & Hnd' & Hrow).
  destruct (from_row_loop_nested r r [] dct r' Hnd E) as (I1 & I2 & _ & I4).
  assert (NoDup (dict_keys dct)) as Hdct by (apply I1; apply NoDup_nil_2).
  exists (BaseStructure.merge_nested dct r').
  unfold BaseStructure.from_row. rewrite E. split; [done|]. split.
  - intros p c v Hget.
    apply dict_get_elem_of in Hget as [Hin Hkey].
    assert (str_contains separator (String.append p (String separator c)) = true) as Hdot.
    { destruct (str_contains _ _) eqn:Hc; [done|].
      apply str_contains_count in Hc. rewrite str_count_append in Hc. lia. }
    destruct (Hgood _ Hkey Hdot) as [_ Hcnt].
    rewrite str_count_append in Hcnt.
    assert (str_split (String.append p (String separator c)) separator = [p; c]) as Hs.
    { apply str_split_two. split; [done|]. split; apply str_contains_count; lia. }
    destruct (I4 _ _ _ _ Hin Hs) as (d & Hp & Hc).
    exists d. split; [|done].
    rewrite dict_get_map, merge_nested_map by done.
    apply lookup_union_Some_l. rewrite lookup_fmap.
    rewrite dict_get_map in Hp. apply fmap_Some. exists d. split; [exact Hp|done].
  - intros k Hk. rewrite dict_get_map, merge_nested_map by done.
    apply lookup_union_None. split.
    + rewrite lookup_fmap. apply fmap_None.
      apply eq_None_not_Some. intros Hsome.
      assert (k ∈ dict_keys dct) as Hin by (apply dict_map_keys; exact Hsome).
      destruct (I2 k Hin) as [Hnil|Hc]; [by apply elem_of_nil in Hnil|congruence].
    + apply eq_None_not_Some. intros Hsome. apply dict_map_keys in Hsome.
      by destruct (Hrow k Hk Hsome).
Qed.

Lemma from_row_nests_dotted_keys_witness :
  exists kwargs,
    BaseStructure.from_row AnyRecord
      [("a", VInt 0); ("a.b", VInt 1); ("a.c", VInt 2); ("@x", VInt 3)]
    = (AnyRecord kwargs, kwargs) /\
    (forall parent child v,
       dict_get (String.append parent (String separator child))
         [("a", VInt 0); ("a.b", VInt 1); ("a.c", VInt 2); ("@x", VInt 3)] = Some v ->
       exists d, dict_get parent kwargs = Some (VDict d) /\ dict_get child d = Some v) /\
    (forall k, str_contains separator k = true -> dict_get k kwargs = None).
Proof.
  apply (from_row_nests_dotted_keys AnyRecord).
  - simpl. repeat (apply NoDup_cons_2; [rewrite ?elem_of_cons, elem_of_nil;
      intros Hin; repeat (destruct Hin as [Hin|Hin]; [discriminate Hin|]); exact Hin|]).
    apply NoDup_nil_2.
  - intros k Hk. simpl in Hk.
    repeat (apply elem_of_cons in Hk as [->|Hk];
            [intros Hd; first [discriminate Hd | split; reflexivity]|]).
    by apply elem_of_nil in Hk.
Defined.

(** C9: a row with a key that holds two separators or more never reaches the
    constructor: [from_row] raises, with the unpacking error of the split or
    with a [KeyError] met at an earlier key. *)
Theorem from_row_two_separators_raises {T} (cls : row -> result T) (r : row) (k : string) :
  k ∈ dict_keys r -> 2 <= str_count k separator ->
  exists e r',
    BaseStructure.from_row cls r = (Raise e, r') /\
    (e = BaseStructure.unpack_too_many \/ exists k', e = KeyError k').
Proof.
  intros Hk Hcnt.
  destruct (from_row_loop_raises r k Hk Hcnt r []) as (e & r' & E & He).
  exists e, r'. unfold BaseStructure.from_row. by rewrite E.
Qed.

Lemma from_row_two_separators_raises_witness :
  exists e r',
    BaseStructure.from_row AnyRecord [("name", VStr "t"); ("a.b.c", VInt 1)] = (Raise e, r') /\
    (e = BaseStructure.unpack_too_many \/ exists k', e = KeyError k').
Proof.
  apply (from_row_two_separators_raises AnyRecord _ "a.b.c").
  - simpl. apply elem_of_cons. right. apply elem_of_cons. by left.
  - simpl. lia.
Defined.

(** ** Claims on the cursor *)

(** X9: A result without the progress column is appended to the buffer, after
    the rows already there. *)
Lemma execute_appends (g : Globals) (client : AsyncClient) (self : HTTPDictCursor)
    (query : string) (args : option (dict value)) (res : QueryResult) :
  http_client g = Some client ->
  client_query client query args [("session_id", VStr (session_id self))] = Ok res ->
  "total_rows_to_read" ∉ column_names res ->
  Cursor.execute g self query args
  = (Ok (), {| results := results self ++ named_results res;
               session_id := session_id self |}).
Proof.
  intros Hc Hq Hm. unfold Cursor.execute. rewrite Hc, Hq.
  by destruct (decide _).
Qed.

Lemma fetchone_times_drains (rows : list row) (sid : string) :
  Cursor.fetchone_times (length rows) {| results := rows; session_id := sid |}
  = (map Some rows, {| results := []; session_id := sid |}).
Proof.
  induction rows as [|r rows IH]; [done|].
  simpl in *. by rewrite IH.
Qed.

Lemma fetchone_times_app (n m : nat) (self : HTTPDictCursor) :
  Cursor.fetchone_times (n + m) self
  = let (xs, self') := Cursor.fetchone_times n self in
    let (ys, self'') := Cursor.fetchone_times m self' in
    (xs ++ ys, self'').
Proof.
  revert self. induction n as [|n IH]; intros self; simpl.
  - by destruct (Cursor.fetchone_times m self).
  - destruct (Cursor.fetchone self) as [x self1]. rewrite IH.
    destruct (Cursor.fetchone_times n self1) as [xs self2].
    by destruct (Cursor.fetchone_times m self2).
Qed.

(** C6: on a cursor that holds the rows [r1 .. rN], each [fetchone] returns
    the oldest row and leaves the others; N calls return [r1 .. rN] in that
    order, and call N+1 returns [None]. *)
Theorem fetchone_fifo (self : HTTPDictCursor) :
  (forall r rest, results self = r :: rest ->
     Cursor.fetchone self = (Some r, {| results := rest; session_id := session_id self |})) /\
  Cursor.fetchone_times (S (length (results self))) self
  = (map Some (results self) ++ [None], {| results := []; session_id := session_id self |}).
Proof.
  destruct self as [rows sid]. cbn [results session_id]. split.
  - intros r rest ->. done.
  - replace (S (length rows)) with (length rows + 1) by lia.
    rewrite fetchone_times_app, fetchone_times_drains. done.
Qed.

(** C7: [fetchall] returns the whole buffer and leaves it empty, so a second
    [fetchall] right after returns the empty list. *)
Theorem fetchall_twice (self : HTTPDictCursor) :
  let (first, self1) := Cursor.fetchall self in
  let (second, self2) := Cursor.fetchall self1 in
  first = results self /\ results self1 = [] /\ second = [] /\ results self2 = [].
Proof. done. Qed.

(** C8: when the answer to the query lists the column [total_rows_to_read],
    [execute] returns without touching the buffer; [fetchall] on a cursor
    that was empty before then returns the empty list, and so does
    [db_fetchall] for that query. *)
Theorem execute_skips_progress_result (g : Globals) (client : AsyncClient)
    (self : HTTPDictCursor) (query : string) (args : option (dict value))
    (res : QueryResult) :
  http_client g = Some client ->
  client_query client query args [("session_id", VStr (session_id self))] = Ok res ->
  "total_rows_to_read" ∈ column_names res ->
  Cursor.execute g self query args = (Ok (), self) /\
  (results self = [] ->
   fst (Cursor.fetchall (snd (Cursor.execute g self query args))) = []) /\
  (forall T (model : row -> result T) a, args = Some a ->
     db_fetchall model g (session_id self) query (Some a) = Ok []).
Proof.
  intros Hc Hq Hm.
  assert (forall c, session_id c = session_id self ->
            Cursor.execute g c query args = (Ok (), c)) as Hex.
  { intros c Hsid. unfold Cursor.execute. rewrite Hc, Hsid, Hq.
    by destruct (decide _). }
  split; [by apply Hex|]. split.
  - intros Hempty. by rewrite Hex.
  - intros T model a ->. unfold db_fetchall.
    by rewrite (Hex (Cursor.init (session_id self)) eq_refl).
Qed.

Lemma execute_skips_progress_result_witness :
  let g := {| pools := []; http_pool := None;
              http_client := Some {| client_pool_mgr := None;
                                     client_query := sample_query |} |} in
  Cursor.execute g (Cursor.init "5c0c3a2e") "progress" (Some []) = (Ok (), Cursor.init "5c0c3a2e") /\
  (results (Cursor.init "5c0c3a2e") = [] ->
   fst (Cursor.fetchall (snd (Cursor.execute g (Cursor.init "5c0c3a2e") "progress" (Some [])))) = []) /\
  (forall T (model : row -> result T) a, Some [] = Some a ->
     db_fetchall model g (session_id (Cursor.init "5c0c3a2e")) "progress" (Some a) = Ok []).
Proof.
  intros g.
  apply (execute_skips_progress_result g
           {| client_pool_mgr := None; client_query := sample_query |}
           (Cursor.init "5c0c3a2e") "progress" (Some [])
           {| column_names := ["total_rows_to_read"];
              named_results := [[("total_rows_to_read", VInt 2)]] |}).
  - reflexivity.
  - reflexivity.
  - simpl. apply elem_of_cons. by left.
Defined.

(** ** Claims on the query functions *)

(** C10: [db_fetchone] returns [None] exactly when the query ran and left
    the new cursor's buffer empty; when the buffer is [r :: rest], the
    answer is [from_row] of [r] alone, whatever [rest] is: the other rows
    stay in the cursor, which is not returned.  (A query that raises
    buffers nothing and its exception is the outcome.) *)
Theorem db_fetchone_first_row {T} (model : row -> result T) (g : Globals)
    (sid query : string) (query_args : option (dict value)) :
  let args := Some (match query_args with None => [] | Some a => a end) in
  (db_fetchone model g sid query query_args = Ok None <->
   exists self, Cursor.execute g (Cursor.init sid) query args = (Ok (), self) /\
                results self = []) /\
  (forall self r rest,
     Cursor.execute g (Cursor.init sid) query args = (Ok (), self) ->
     results self = r :: rest ->
     db_fetchone model g sid query query_args
     = match fst (BaseStructure.from_row model r) with
       | Ok t => Ok (Some t)
       | Raise e => Raise e
       end) /\
  (forall e self,
     Cursor.execute g (Cursor.init sid) query args = (Raise e, self) ->
     db_fetchone model g sid query query_args = Raise e).
Proof.
  intros args. unfold db_fetchone. fold args.
  destruct (Cursor.execute g (Cursor.init sid) query args) as [[[]|e] self] eqn:E.
  - unfold Cursor.fetchone.
    destruct (results self) as [|r rest] eqn:Hr; (split; [|split]).
    + split; [intros _; by exists self|done].
    + intros self' r' rest' Heq Hr'. inversion Heq; subst. congruence.
    + intros e self' Heq. discriminate Heq.
    + split.
      * destruct (BaseStructure.from_row model r) as [[t|e] r']; discriminate.
      * intros (self' & Heq & Hr'). inversion Heq; subst. congruence.
    + intros self' r' rest' Heq Hr'. inversion Heq; subst self'.
      rewrite Hr in Hr'. inversion Hr'; subst r' rest'.
      by destruct (BaseStructure.from_row model r) as [[t|e] r'].
    + intros e self' Heq. discriminate Heq.
  - split; [|split].
    + split; [discriminate|]. intros (self' & Heq & _). discriminate Heq.
    + intros self' r rest Heq. discriminate Heq.
    + intros e' self' Heq. by inversion Heq.
Qed.

Lemma db_fetchone_first_row_witness :
  let g := {| pools := []; http_pool := None;
              http_client := Some {| client_pool_mgr := None;
                                     client_query := sample_query |} |} in
  db_fetchone AnyRecord g "5c0c3a2e" "SELECT name, engine FROM system.databases" None
  = Ok (Some [("name", VStr "default"); ("engine", VStr "Atomic")]) /\
  db_fetchone AnyRecord g "5c0c3a2e" "nothing" None = Ok None.
Proof.
  intros g. split.
  - apply (proj1 (proj2 (db_fetchone_first_row AnyRecord g "5c0c3a2e"
                    "SELECT name, engine FROM system.databases" None))
             {| results := sample_rows; session_id := "5c0c3a2e" |}
             [("name", VStr "default"); ("engine", VStr "Atomic")]
             [[("name", VStr "system"); ("engine", VStr "Atomic")]]);
      reflexivity.
  - apply (proj1 (db_fetchone_first_row AnyRecord g "5c0c3a2e" "nothing" None)).
    exists (Cursor.init "5c0c3a2e"). split; reflexivity.
Defined.

(** ** Claims on the scope *)

(** The [finally] block: the pool reference is dropped and the pool manager
    it named is cleared; the client reference is not written. *)
Lemma with_clickhouse_exit_spec (g : Globals) :
  http_pool (with_clickhouse_exit g) = None /\
  http_client (with_clickhouse_exit g) = http_client g /\
  (forall a pm, http_pool g = Some a -> pools g !! a = Some pm ->
     pools (with_clickhouse_exit g) !! a = Some (pool_clear pm)).
Proof.
  unfold with_clickhouse_exit. simpl. repeat split.
  intros a pm -> Hpm. by rewrite list_lookup_alter_eq, Hpm.
Qed.

(** Once the client is built, the scope runs its body on the state that
    publishes the new pool manager and the client, and then the [finally]
    block, whether the body returned or raised. *)
Lemma with_clickhouse_yields {A} (env : Env) (kwargs : dict value)
    (body : option nat -> Globals -> result A * Globals) (g : Globals)
    (client : AsyncClient) :
  get_async_client env (Some (length (pools g)))
    (HTTP_THREAD_EXECUTOR_POOL_SIZE (clickhouse_config env)) GLOBAL_SETTINGS kwargs
  = Ok client ->
  with_clickhouse env kwargs body g
  = let g3 := {| pools := pools g ++
                   [{| pm_maxsize := HTTP_MAX_POOL_SIZE (clickhouse_config env);
                       pm_num_pools := HTTP_NUM_POOLS (clickhouse_config env);
                       pm_retries := retries; pm_verify := false; pm_pools := [] |}];
                 http_pool := Some (length (pools g));
                 http_client := Some client |} in
    (fst (body (Some (length (pools g))) g3),
     with_clickhouse_exit (snd (body (Some (length (pools g))) g3))).
Proof.
  intros H. unfold with_clickhouse, get_http_client, get_pool_manager. simpl.
  rewrite H. simpl. by destruct (body _ _).
Qed.

(** X13: A body that leaves the client reference alone ends in a state where the
    client is still published, after the scope is left. *)
Lemma with_clickhouse_leaves_client {A} (env : Env) (kwargs : dict value)
    (body : option nat -> Globals -> result A * Globals) (g : Globals)
    (client : AsyncClient) :
  get_async_client env (Some (length (pools g)))
    (HTTP_THREAD_EXECUTOR_POOL_SIZE (clickhouse_config env)) GLOBAL_SETTINGS kwargs
  = Ok client ->
  (forall y g0, http_client (snd (body y g0)) = http_client g0) ->
  http_pool (snd (with_clickhouse env kwargs body g)) = None /\
  http_client (snd (with_clickhouse env kwargs body g)) = Some client.
Proof.
  intros H Hbody. rewrite (with_clickhouse_yields env kwargs body g client H).
  simpl. split; [done|]. by rewrite Hbody.
Qed.

(** C1 (the code departs from the claim): the scope is left after a body
    that returned and after a body that raised.  Both times the pool manager
    is cleared and the pool reference is absent, but the client reference
    still holds the client built on entry. *)
Theorem with_clickhouse_exit_keeps_client :
  let client := {| client_pool_mgr := Some 0; client_query := sample_query |} in
  let returned := clickhouse_default sample_env sample_body module_init in
  let raised := clickhouse_default sample_env sample_failing_body module_init in
  (fst returned = Ok sample_rows /\
   pm_pools <$> pools (snd returned) !! 0 = Some [] /\
   http_pool (snd returned) = None /\
   http_client (snd returned) = Some client) /\
  (fst raised = Raise (DriverError "Table default.missing does not exist") /\
   pm_pools <$> pools (snd raised) !! 0 = Some [] /\
   http_pool (snd raised) = None /\
   http_client (snd raised) = Some client).
Proof. repeat split. Qed.

(** With no client published, [execute] raises the scope error and the
    cursor is as before. *)
Lemma execute_out_of_scope (g : Globals) (self : HTTPDictCursor) (query : string)
    (args : option (dict value)) :
  http_client g = None ->
  Cursor.execute g self query args = (Raise Cursor.scope_error, self).
Proof. intros H. unfold Cursor.execute. by rewrite H. Qed.

(** With a client published, [execute] raises only what the client raises. *)
Lemma execute_with_client (g : Globals) (client : AsyncClient)
    (self : HTTPDictCursor) (query : string) (args : option (dict value)) (e : exn) :
  http_client g = Some client ->
  fst (Cursor.execute g self query args) = Raise e ->
  client_query client query args [("session_id", VStr (session_id self))] = Raise e.
Proof.
  intros H. unfold Cursor.execute. rewrite H.
  destruct (client_query client query args _) as [res|e']; simpl.
  - by destruct (decide _).
  - by intros [= ->].
Qed.

(** C2 (the code departs from the claim): before any scope was entered
    [execute], [db_fetchone] and [db_fetchall] raise the scope error; after
    a scope was entered and left, the same calls reach the server and
    return rows. *)
Theorem execute_after_scope_exit :
  let before := module_init in
  let after := snd (clickhouse_default sample_env sample_body module_init) in
  (Cursor.execute before (Cursor.init "91d7") "SELECT 1" None
   = (Raise Cursor.scope_error, Cursor.init "91d7") /\
   db_fetchone AnyRecord before "91d7" "SELECT 1" None = Raise Cursor.scope_error /\
   db_fetchall AnyRecord before "91d7" "SELECT 1" None = Raise Cursor.scope_error) /\
  (http_pool after = None /\
   Cursor.execute after (Cursor.init "91d7") "SELECT 1" None
   = (Ok (), {| results := sample_rows; session_id := "91d7" |}) /\
   db_fetchone AnyRecord after "91d7" "SELECT 1" None
   = Ok (Some [("name", VStr "default"); ("engine", VStr "Atomic")]) /\
   db_fetchall AnyRecord after "91d7" "SELECT 1" None = Ok sample_rows).
Proof. repeat split. Qed.

(** ** [BaseStructure.from_rows] *)

Lemma from_rows_Forall2 {T} (cls : row -> result T) (rows : list row) (ts : list T) :
  fst (BaseStructure.from_rows cls rows) = Ok ts <->
  Forall2 (fun r t => fst (BaseStructure.from_row cls r) = Ok t) rows ts.
Proof.
  revert ts. induction rows as [|x rows IH]; intros ts.
  - simpl. split; [intros [= <-]; constructor|intros H; by inversion H].
  - simpl.
    destruct (BaseStructure.from_row cls x) as [[t|e] x'] eqn:Ex; simpl.
    + destruct (BaseStructure.from_rows cls rows) as [[ts'|e] rows'] eqn:Er; simpl.
      * simpl in IH. split.
        -- intros [= <-]. constructor; [by rewrite Ex|]. by apply IH.
        -- intros H. inversion H as [|? t0 ? ts0 Ht Hts]; subst.
           rewrite Ex in Ht. simpl in Ht. inversion Ht; subst t0.
           apply IH in Hts. by inversion Hts.
      * split; [discriminate|].
        intros H. inversion H as [|? t0 ? ts0 Ht Hts]; subst.
        apply IH in Hts. simpl in Hts. discriminate Hts.
    + split; [discriminate|].
      intros H. inversion H as [|? t0 ? ts0 Ht Hts]; subst.
      rewrite Ex in Ht. discriminate Ht.
Qed.

Lemma from_rows_Raise {T} (cls : row -> result T) (rows : list row) (e : exn) :
  fst (BaseStructure.from_rows cls rows) = Raise e ->
  exists r, r ∈ rows /\ fst (BaseStructure.from_row cls r) = Raise e.
Proof.
  induction rows as [|x rows IH]; simpl; [discriminate|].
  destruct (BaseStructure.from_row cls x) as [[t|e'] x'] eqn:Ex; simpl.
  - destruct (BaseStructure.from_rows cls rows) as [[ts'|e'] rows']; simpl in *;
      [discriminate|].
    intros [= ->]. destruct (IH eq_refl) as (r & Hr & He).
    exists r. split; [by apply elem_of_cons; right|done].
  - intros [= ->]. exists x. split; [by apply elem_of_cons; left|by rewrite Ex].
Qed.




(** ** [BaseStructure.from_row] as a finite map *)

Section MapperExact.
Import BaseStructure.
Implicit Types (items r : row) (dct : dict (dict value)) (key : string) (v : value).

Lemma setdefault_setitem_inv p c v dct q b w :
  (exists d, dict_get q (setdefault_setitem p c v dct) = Some d /\ dict_get b d = Some w) ->
  (q = p /\ b = c /\ w = v) \/
  (exists d, dict_get q dct = Some d /\ dict_get b d = Some w).
Proof.
  intros (d & Hq & Hb). unfold setdefault_setitem in Hq.
  destruct (decide (q = p)) as [->|Hqp].
  - destruct (dict_get p dct) as [d0|] eqn:E;
      rewrite (dict_get_map p), dict_map_set, lookup_insert_eq in Hq;
      inversion Hq; subst d; clear Hq.
    + rewrite (dict_get_map b), dict_map_set in Hb.
      destruct (decide (c = b)) as [->|Hcb].
      * rewrite lookup_insert_eq in Hb. inversion Hb. by left.
      * rewrite lookup_insert_ne in Hb by done.
        right. exists d0. split; [done|]. by rewrite dict_get_map.
    + simpl in Hb. destruct (String.eqb_spec b c) as [->|Hbc]; [|done].
      inversion Hb. by left.
  - right. exists d. split; [|done].
    destruct (dict_get p dct) as [d0|];
      rewrite (dict_get_map q), dict_map_set, lookup_insert_ne in Hq by done;
      by rewrite dict_get_map.
Qed.

(** Nothing enters the nested mappings but the values of the keys that
    split in two. *)
Lemma from_row_loop_nested_inv items :
  forall r dct dct' r',
    from_row_loop items r dct = (Ok dct', r') ->
    (forall q, q ∈ dict_keys dct' ->
       q ∈ dict_keys dct \/
       exists key b, key ∈ dict_keys items /\ str_split key separator = [q; b]) /\
    (forall q b w,
       (exists d, dict_get q dct' = Some d /\ dict_get b d = Some w) ->
       (exists d, dict_get q dct = Some d /\ dict_get b d = Some w) \/
       exists key, (key, w) ∈ items /\ str_split key separator = [q; b]).
Proof.
  induction items as [|[key v] items IH]; intros r dct dct' r' H.
  - simpl in H. inversion H; subst. split; intros; by left.
  - apply from_row_loop_cons_Ok in H as [r1 [[Hc H]|(p & c & Hs & H)]];
      destruct (IH _ _ _ _ H) as [I1 I2]; split.
    + intros q Hq. destruct (I1 q Hq) as [?|(k & b & Hk & Hkb)]; [by left|].
      right. exists k, b. split; [|done]. simpl. by apply elem_of_cons; right.
    + intros q b w Hd. destruct (I2 q b w Hd) as [?|(k & Hk & Hkb)]; [by left|].
      right. exists k. split; [|done]. by apply elem_of_cons; right.
    + intros q Hq. destruct (I1 q Hq) as [Hq'|(k & b & Hk & Hkb)].
      * apply setdefault_setitem_keys in Hq' as [->|?]; [|by left].
        right. exists key, c. split; [|done]. simpl. by apply elem_of_cons; left.
      * right. exists k, b. split; [|done]. simpl. by apply elem_of_cons; right.
    + intros q b w Hd. destruct (I2 q b w Hd) as [Hd'|(k & Hk & Hkb)].
      * apply setdefault_setitem_inv in Hd' as [(-> & -> & ->)|?]; [|by left].
        right. exists key. split; [|done]. by apply elem_of_cons; left.
      * right. exists k. split; [|done]. by apply elem_of_cons; right.
Qed.

Lemma str_startswith_inv (c : ascii) (s : string) :
  str_startswith s c = true -> s = String c (str_removeprefix s c).
Proof.
  destruct s as [|a s]; simpl; [done|].
  intros H. rewrite H. by apply Ascii.eqb_eq in H as ->.
Qed.

(** The caller's row after the loop, as a map: [k] holds what the key with
    the sigil before [k] held; otherwise a visited key with sigil or
    separator is gone, and every other key is as it was. *)
Lemma from_row_loop_map items :
  forall r dct,
    NoDup (dict_keys items) -> NoDup (dict_keys r) ->
    (forall k, k ∈ dict_keys items -> k ∈ dict_keys r) ->
    (forall k, k ∈ dict_keys items ->
       (str_contains separator k = true ->
        str_startswith k sigil = false /\ str_count k separator = 1) /\
       (str_startswith k sigil = true ->
        str_startswith (str_removeprefix k sigil) sigil = false)) ->
    exists dct' r',
      from_row_loop items r dct = (Ok dct', r') /\
      (forall k, String sigil k ∈ dict_keys items ->
         dict_map r' !! k = dict_map r !! String sigil k) /\
      (forall k, String sigil k ∉ dict_keys items -> k ∈ dict_keys items ->
         str_startswith k sigil = true \/ str_contains separator k = true ->
         dict_map r' !! k = None) /\
      (forall k, String sigil k ∉ dict_keys items ->
         k ∉ dict_keys items \/
         (str_startswith k sigil = false /\ str_contains separator k = false) ->
         dict_map r' !! k = dict_map r !! k).
Proof.
  induction items as [|[key v] items IH]; intros r dct Hnd Hr Hin Hgood.
  - exists dct, r. split; [done|]. split; [|split].
    + intros k Hk. by apply elem_of_nil in Hk.
    + intros k _ Hk. by apply elem_of_nil in Hk.
    + done.
  - simpl in Hnd. apply NoDup_cons in Hnd as [Hkey Hnd].
    assert (key ∈ dict_keys r) as Hkr by (apply Hin; simpl; by apply elem_of_cons; left).
    assert (forall k, k ∈ dict_keys items -> k ∈ dict_keys (V:=value) ((key, v) :: items))
      as Hsub by (intros k Hk; simpl; by apply elem_of_cons; right).
    assert (forall k, k ∈ dict_keys (V:=value) ((key, v) :: items) ->
              k = key \/ k ∈ dict_keys items) as Hcons
      by (intros k Hk; simpl in Hk; by apply elem_of_cons in Hk).
    destruct (Hgood key) as [Gdot Gsig]; [simpl; by apply elem_of_cons; left|].
    destruct (dict_pop_is_Some key r) as (x & r0 & Hpop); [by apply dict_map_keys|].
    pose proof (dict_pop_keys_iff _ _ _ _ Hpop Hr) as Hr0.
    pose proof (dict_pop_NoDup _ _ _ _ Hpop Hr) as Hnd0.
    destruct (dict_pop_map _ _ _ _ Hpop Hr) as [Hx Hm0].
    destruct (str_contains separator key) eqn:Hdot.
    + (* one separator, no sigil *)
      destruct (Gdot eq_refl) as [Hsig Hcnt].
      destruct (str_count_one_split _ _ Hcnt) as (p & c & Hs).
      rewrite (from_row_loop_dotted _ _ _ _ _ _ _ _ _ Hsig Hs Hpop).
      destruct (IH r0 (setdefault_setitem p c v dct)) as (dct' & r' & E & Ia & Ib & Ic);
        [done|done| |by auto|].
      { intros k Hk. apply Hr0. split; [by auto|]. intros ->. done. }
      assert (forall k, String sigil k <> key) as Hne
        by (intros k <-; discriminate Hsig).
      exists dct', r'. split; [done|]. split; [|split].
      * intros k Hk. apply Hcons in Hk as [Hk|Hk]; [by destruct (Hne k)|].
        rewrite (Ia k Hk), Hm0. by apply lookup_delete_ne.
      * intros k Hnk Hk Hsp. apply Hcons in Hk as [->|Hk].
        -- rewrite Ic; [by rewrite Hm0, lookup_delete_eq| |by left].
           intros ?. apply Hnk. by auto.
        -- apply Ib; [|done|done]. intros ?. apply Hnk. by auto.
      * intros k Hnk Hk.
        assert (k <> key) as Hkk.
        { intros ->. destruct Hk as [Hk|[_ Hk]]; [|congruence].
          apply Hk. simpl. by apply elem_of_cons; left. }
        rewrite Ic; [rewrite Hm0; by apply lookup_delete_ne| |].
        -- intros ?. apply Hnk. by auto.
        -- destruct Hk as [Hk|Hk]; [left|by right]. intros ?. apply Hk. by auto.
    + destruct (str_startswith key sigil) eqn:Hsig.
      * (* the sigil, no separator *)
        rewrite (from_row_loop_sigil _ _ _ _ _ _ _ Hsig Hdot Hpop).
        pose proof (str_startswith_inv _ _ Hsig) as Hkey_eq.
        set (j := str_removeprefix key sigil) in *.
        assert (str_startswith j sigil = false) as Hj by (by apply Gsig).
        assert (str_contains separator j = false) as Hjd
          by (by apply str_removeprefix_contains).
        assert (j <> key) as Hjk by (intros Heq; rewrite Heq in Hj; congruence).
        destruct (IH (dict_set j x r0) dct) as (dct' & r' & E & Ia & Ib & Ic);
          [done|by apply dict_set_NoDup| |by auto|].
        { intros k Hk. apply dict_keys_set. right. apply Hr0.
          split; [by auto|]. intros ->. done. }
        assert (forall k, String sigil k <> j) as Hne
          by (intros k Heq; rewrite <- Heq in Hj; discriminate Hj).
        exists dct', r'. split; [done|]. split; [|split].
        -- intros k Hk. apply Hcons in Hk as [Hk|Hk].
           ++ assert (k = j) as -> by (rewrite Hkey_eq in Hk; by inversion Hk).
              rewrite Ic; [|by rewrite <- Hkey_eq|by right].
              rewrite dict_map_set, lookup_insert_eq. by rewrite <- Hkey_eq.
           ++ rewrite (Ia k Hk), dict_map_set, lookup_insert_ne by (by apply not_eq_sym).
              rewrite Hm0. apply lookup_delete_ne. intros Heq. by rewrite <- Heq in Hk.
        -- intros k Hnk Hk Hsp. apply Hcons in Hk as [->|Hk].
           ++ rewrite Ic; [| |by left].
              ** rewrite dict_map_set, lookup_insert_ne by done.
                 by rewrite Hm0, lookup_delete_eq.
              ** intros ?. apply Hnk. by auto.
           ++ apply Ib; [|done|done]. intros ?. apply Hnk. by auto.
        -- intros k Hnk Hk.
           assert (k <> key) as Hkk.
           { intros ->. destruct Hk as [Hk|[Hk _]]; [|congruence].
             apply Hk. simpl. by apply elem_of_cons; left. }
           assert (k <> j) as Hkj.
           { intros ->. apply Hnk. rewrite <- Hkey_eq. simpl. by apply elem_of_cons; left. }
           rewrite Ic.
           ++ rewrite dict_map_set, lookup_insert_ne by (by apply not_eq_sym).
              rewrite Hm0. by apply lookup_delete_ne.
           ++ intros ?. apply Hnk. by auto.
           ++ destruct Hk as [Hk|Hk]; [left|by right]. intros ?. apply Hk. by auto.
      * (* a plain key *)
        rewrite (from_row_loop_plain _ _ _ _ _ Hsig Hdot).
        destruct (IH r dct) as (dct' & r' & E & Ia & Ib & Ic); [done|done|by auto|by auto|].
        assert (forall k, String sigil k <> key) as Hne
          by (intros k <-; discriminate Hsig).
        exists dct', r'. split; [done|]. split; [|split].
        -- intros k Hk. apply Hcons in Hk as [Hk|Hk]; [by destruct (Hne k)|by apply Ia].
        -- intros k Hnk Hk Hsp. apply Hcons in Hk as [->|Hk].
           ++ destruct Hsp; congruence.
           ++ apply Ib; [|done|done]. intros ?. apply Hnk. by auto.
        -- intros k Hnk Hk. apply Ic.
           ++ intros ?. apply Hnk. by auto.
           ++ destruct Hk as [Hk|Hk]; [left|by right]. intros ?. apply Hk. by auto.
Qed.

End MapperExact.

Lemma str_split_append_one (sep : ascii) (p c : string) :
  str_count (String.append p (String sep c)) sep = 1 ->
  str_split (String.append p (String sep c)) sep = [p; c].
Proof.
  rewrite str_count_append. intros H.
  apply str_split_two. split; [done|]. split; apply str_contains_count; lia.
Qed.

(** X3: In a row whose keys with a separator have exactly one and no sigil, the
    nested mapping stored under a parent holds exactly the children of that
    parent: its entry at [child] is the row's entry at [parent.child], for
    every [child], and nothing else. *)
Theorem from_row_nested_children {T} (cls : row -> result T) (r : row) :
  NoDup (dict_keys r) ->
  (forall k, k ∈ dict_keys r -> str_contains separator k = true ->
     str_startswith k sigil = false /\ str_count k separator = 1) ->
  exists kwargs,
    BaseStructure.from_row cls r = (cls kwargs, kwargs) /\
    (forall parent child0 v0,
       dict_get (String.append parent (String separator child0)) r = Some v0 ->
       exists d,
         dict_get parent kwargs = Some (VDict d) /\
         (forall child,
            dict_get child d = dict_get (String.append parent (String separator child)) r)).
Proof.
  intros Hnd Hgood.
  destruct (from_row_loop_row r r [] Hnd Hnd (fun k H => H) Hgood)
    as (dct & r' & E & Hnd' & Hrow).
  destruct (from_row_loop_nested r r [] dct r' Hnd E) as (I1 & _ & _ & I4).
  destruct (from_row_loop_nested_inv r r [] dct r' E) as (_ & J2).
  assert (NoDup (dict_keys dct)) as Hdct by (apply I1; apply NoDup_nil_2).
  assert (forall p c w, dict_get (String.append p (String separator c)) r = Some w ->
            (String.append p (String separator c), w) ∈ r /\
            str_split (String.append p (String separator c)) separator = [p; c]) as Hsplit.
  { intros p c w Hget. apply dict_get_elem_of in Hget as [Hin Hkey]. split; [done|].
    apply str_split_append_one. apply Hgood; [done|].
    destruct (str_contains _ _) eqn:Hc; [done|].
    apply str_contains_count in Hc. rewrite str_count_append in Hc. lia. }
  exists (BaseStructure.merge_nested dct r').
  unfold BaseStructure.from_row. rewrite E. split; [done|].
  intros p c0 v0 Hget0.
  destruct (Hsplit _ _ _ Hget0) as [Hin0 Hs0].
  destruct (I4 _ _ _ _ Hin0 Hs0) as (d & Hp & Hc0).
  exists d. split.
  - rewrite dict_get_map, merge_nested_map by done.
    apply lookup_union_Some_l. rewrite lookup_fmap.
    rewrite dict_get_map in Hp. apply fmap_Some. exists d. split; [exact Hp|done].
  - intros c. apply option_eq. intros w. split.
    + intros Hc.
      destruct (J2 p c w) as [(d0 & Hnil & _)|(key & Hin & Hs)];
        [by exists d|discriminate Hnil|].
      apply str_split_two in Hs as (-> & _ & _).
      rewrite dict_get_map. by apply elem_of_list_to_map_1.
    + intros Hget. destruct (Hsplit _ _ _ Hget) as [Hin Hs].
      destruct (I4 _ _ _ _ Hin Hs) as (d2 & Hp2 & Hc2). congruence.
Qed.

Lemma from_row_nested_children_witness :
  exists kwargs,
    BaseStructure.from_row AnyRecord
      [("a", VInt 0); ("a.b", VInt 1); ("a.c", VInt 2); ("@x", VInt 3)]
    = (AnyRecord kwargs, kwargs) /\
    (forall parent child0 v0,
       dict_get (String.append parent (String separator child0))
         [("a", VInt 0); ("a.b", VInt 1); ("a.c", VInt 2); ("@x", VInt 3)] = Some v0 ->
       exists d,
         dict_get parent kwargs = Some (VDict d) /\
         (forall child,
            dict_get child d
            = dict_get (String.append parent (String separator child))
                [("a", VInt 0); ("a.b", VInt 1); ("a.c", VInt 2); ("@x", VInt 3)])).
Proof.
  apply (from_row_nested_children AnyRecord).
  - simpl. repeat (apply NoDup_cons_2; [rewrite ?elem_of_cons, elem_of_nil;
      intros Hin; repeat (destruct Hin as [Hin|Hin]; [discriminate Hin|]); exact Hin|]).
    apply NoDup_nil_2.
  - intros k Hk. simpl in Hk.
    repeat (apply elem_of_cons in Hk as [->|Hk];
            [intros Hd; first [discriminate Hd | split; reflexivity]|]).
    by apply elem_of_nil in Hk.
Defined.

(** X4: In a row whose keys with a separator have exactly one and no sigil, and
    where no key begins with two sigils, a key [k] that is not the parent of
    a dotted key reaches the constructor as follows: if the row has the key
    with the sigil before [k], [k] carries that key's value (also when the
    row had a flat [k]); otherwise a [k] with sigil or separator is absent,
    and any other [k] is as in the row. *)
Theorem from_row_flat_keys {T} (cls : row -> result T) (r : row) :
  NoDup (dict_keys r) ->
  (forall k, k ∈ dict_keys r ->
     (str_contains separator k = true ->
      str_startswith k sigil = false /\ str_count k separator = 1) /\
     (str_startswith k sigil = true ->
      str_startswith (str_removeprefix k sigil) sigil = false)) ->
  exists kwargs,
    BaseStructure.from_row cls r = (cls kwargs, kwargs) /\
    (forall k,
       (forall key child, key ∈ dict_keys r -> str_split key separator <> [k; child]) ->
       dict_get k kwargs
       = match dict_get (String sigil k) r with
         | Some v => Some v
         | None =>
             if str_startswith k sigil || str_contains separator k then None
             else dict_get k r
         end).
Proof.
  intros Hnd Hgood.
  destruct (from_row_loop_map r r [] Hnd Hnd (fun k H => H) Hgood)
    as (dct & r' & E & Ia & Ib & Ic).
  destruct (from_row_loop_nested r r [] dct r' Hnd E) as (I1 & _ & _ & _).
  destruct (from_row_loop_nested_inv r r [] dct r' E) as (J1 & _).
  assert (NoDup (dict_keys dct)) as Hdct by (apply I1; apply NoDup_nil_2).
  exists (BaseStructure.merge_nested dct r').
  unfold BaseStructure.from_row. rewrite E. split; [done|].
  intros k Hpar. rewrite (dict_get_map k (BaseStructure.merge_nested dct r')).
  assert (dict_map (BaseStructure.merge_nested dct r') !! k = dict_map r' !! k) as ->.
  { rewrite merge_nested_map by done. apply lookup_union_r.
    rewrite lookup_fmap. apply fmap_None.
    apply eq_None_not_Some. intros Hsome.
    assert (k ∈ dict_keys dct) as Hin by (apply dict_map_keys; exact Hsome).
    destruct (J1 k Hin) as [Hnil|(key & b & Hkey & Hs)];
      [by apply elem_of_nil in Hnil|by destruct (Hpar key b)]. }
  rewrite (dict_get_map (String sigil k)), (dict_get_map k r).
  destruct (dict_map r !! String sigil k) as [w|] eqn:Hsk.
  - rewrite Ia; [done|]. apply dict_map_keys. by rewrite Hsk.
  - assert (String sigil k ∉ dict_keys r) as Hnk.
    { intros Hin. apply dict_map_keys in Hin. rewrite Hsk in Hin. by destruct Hin. }
    destruct (str_startswith k sigil) eqn:Hs; simpl.
    + destruct (decide (k ∈ dict_keys r)) as [Hin|Hnin].
      * apply Ib; [done|done|by left].
      * rewrite Ic; [|done|by left].
        apply eq_None_not_Some. intros Hsome. by apply dict_map_keys in Hsome.
    + destruct (str_contains separator k) eqn:Hd.
      * destruct (decide (k ∈ dict_keys r)) as [Hin|Hnin].
        -- apply Ib; [done|done|by right].
        -- rewrite Ic; [|done|by left].
           apply eq_None_not_Some. intros Hsome. by apply dict_map_keys in Hsome.
      * apply Ic; [done|by right].
Qed.

Lemma from_row_flat_keys_witness :
  exists kwargs,
    BaseStructure.from_row AnyRecord
      [("x", VInt 0); ("a.b", VInt 1); ("@x", VInt 3); ("y", VInt 4)]
    = (AnyRecord kwargs, kwargs) /\
    (forall k,
       (forall key child,
          key ∈ dict_keys [("x", VInt 0); ("a.b", VInt 1); ("@x", VInt 3); ("y", VInt 4)] ->
          str_split key separator <> [k; child]) ->
       dict_get k kwargs
       = match dict_get (String sigil k)
                 [("x", VInt 0); ("a.b", VInt 1); ("@x", VInt 3); ("y", VInt 4)] with
         | Some v => Some v
         | None =>
             if str_startswith k sigil || str_contains separator k then None
             else dict_get k [("x", VInt 0); ("a.b", VInt 1); ("@x", VInt 3); ("y", VInt 4)]
         end).
Proof.
  apply (from_row_flat_keys AnyRecord).
  - simpl. repeat (apply NoDup_cons_2; [rewrite ?elem_of_cons, elem_of_nil;
      intros Hin; repeat (destruct Hin as [Hin|Hin]; [discriminate Hin|]); exact Hin|]).
    apply NoDup_nil_2.
  - intros k Hk. simpl in Hk.
    repeat (apply elem_of_cons in Hk as [->|Hk];
            [split; intros Hd; first [discriminate Hd | split; reflexivity | reflexivity]|]).
    by apply elem_of_nil in Hk.
Defined.

Lemma str_startswith_append (c : ascii) (p s : string) :
  str_startswith p c = true -> str_startswith (String.append p s) c = true.
Proof. by destruct p. Qed.

(** X5: In a row whose keys with a separator have exactly one and no sigil, and
    where no key begins with two sigils, the mapping [from_row] hands to the
    constructor has no key with sigil or separator left: mapping it again
    changes nothing and gives the same record. *)
Theorem from_row_idempotent {T} (cls : row -> result T) (r : row) :
  NoDup (dict_keys r) ->
  (forall k, k ∈ dict_keys r ->
     (str_contains separator k = true ->
      str_startswith k sigil = false /\ str_count k separator = 1) /\
     (str_startswith k sigil = true ->
      str_startswith (str_removeprefix k sigil) sigil = false)) ->
  exists kwargs,
    BaseStructure.from_row cls r = (cls kwargs, kwargs) /\
    (forall k, k ∈ dict_keys kwargs ->
       str_startswith k sigil = false /\ str_contains separator k = false) /\
    BaseStructure.from_row cls kwargs = (cls kwargs, kwargs).
Proof.
  intros Hnd Hgood.
  destruct (from_row_loop_map r r [] Hnd Hnd (fun k H => H) Hgood)
    as (dct & r' & E & Ia & Ib & Ic).
  destruct (from_row_loop_nested r r [] dct r' Hnd E) as (I1 & _ & _ & _).
  destruct (from_row_loop_nested_inv r r [] dct r' E) as (J1 & _).
  assert (NoDup (dict_keys dct)) as Hdct by (apply I1; apply NoDup_nil_2).
  assert (forall k, String sigil k ∈ dict_keys r ->
            str_startswith k sigil = false /\ str_contains separator k = false) as Hstrip.
  { intros k Hk. destruct (Hgood _ Hk) as [Gdot Gsig]. split.
    - by apply (Gsig eq_refl).
    - destruct (str_contains separator k) eqn:Hd; [|done].
      destruct Gdot as [Hs _]; [exact Hd|discriminate Hs]. }
  assert (forall k, str_startswith k sigil = true \/ str_contains separator k = true ->
            dict_map r' !! k = None) as Hrow.
  { intros k Hsp.
    destruct (decide (String sigil k ∈ dict_keys r)) as [Hin|Hnin].
    { destruct (Hstrip k Hin) as [? ?]. destruct Hsp; congruence. }
    destruct (decide (k ∈ dict_keys r)) as [Hk|Hk].
    - by apply Ib.
    - rewrite Ic; [|done|by left].
      apply eq_None_not_Some. intros Hsome. by apply dict_map_keys in Hsome. }
  assert (forall k, k ∈ dict_keys (BaseStructure.merge_nested dct r') ->
            str_startswith k sigil = false /\ str_contains separator k = false) as Hplain.
  { intros k Hk. apply dict_map_keys in Hk.
    rewrite merge_nested_map in Hk by done.
    apply lookup_union_is_Some in Hk as [Hk|Hk].
    - rewrite lookup_fmap in Hk. apply fmap_is_Some in Hk.
      assert (k ∈ dict_keys dct) as Hin by (apply dict_map_keys; exact Hk).
      destruct (J1 k Hin) as [Hnil|(key & b & Hkey & Hs)];
        [by apply elem_of_nil in Hnil|].
      pose proof (proj1 (str_split_two _ _ _ _) Hs) as (Hkey_eq & Hp & _).
      split; [|done].
      destruct (str_startswith k sigil) eqn:Hsig; [|done].
      destruct (Hgood _ Hkey) as [Gdot _].
      destruct Gdot as [Hks _].
      { destruct (str_contains separator key) eqn:Hc; [done|].
        rewrite (str_split_one _ _ Hc) in Hs. discriminate Hs. }
      rewrite Hkey_eq, (str_startswith_append _ _ _ Hsig) in Hks. discriminate Hks.
    - destruct (str_startswith k sigil) eqn:Hsig.
      { rewrite Hrow in Hk by (by left). by destruct Hk. }
      destruct (str_contains separator k) eqn:Hd; [|done].
      rewrite Hrow in Hk by (by right). by destruct Hk. }
  exists (BaseStructure.merge_nested dct r').
  split; [unfold BaseStructure.from_row; by rewrite E|]. split; [done|].
  unfold BaseStructure.from_row at 1.
  by rewrite (from_row_loop_unchanged _ Hplain).
Qed.

Lemma from_row_idempotent_witness :
  exists kwargs,
    BaseStructure.from_row AnyRecord
      [("x", VInt 0); ("a.b", VInt 1); ("@x", VInt 3); ("y", VInt 4)]
    = (AnyRecord kwargs, kwargs) /\
    (forall k, k ∈ dict_keys kwargs ->
       str_startswith k sigil = false /\ str_contains separator k = false) /\
    BaseStructure.from_row AnyRecord kwargs = (AnyRecord kwargs, kwargs).
Proof.
  apply (from_row_idempotent AnyRecord).
  - simpl. repeat (apply NoDup_cons_2; [rewrite ?elem_of_cons, elem_of_nil;
      intros Hin; repeat (destruct Hin as [Hin|Hin]; [discriminate Hin|]); exact Hin|]).
    apply NoDup_nil_2.
  - intros k Hk. simpl in Hk.
    repeat (apply elem_of_cons in Hk as [->|Hk];
            [split; intros Hd; first [discriminate Hd | split; reflexivity | reflexivity]|]).
    by apply elem_of_nil in Hk.
Defined.

Lemma from_row_sigil_separator_raises_witness :
  exists e r',
    BaseStructure.from_row AnyRecord [("name", VStr "t"); ("@engine.full", VStr "Log")]
    = (Raise e, r').
Proof.
  apply (from_row_sigil_separator_raises AnyRecord _ "@engine.full").
  - simpl. repeat (apply NoDup_cons_2; [rewrite ?elem_of_cons, elem_of_nil;
      intros Hin; repeat (destruct Hin as [Hin|Hin]; [discriminate Hin|]); exact Hin|]).
    apply NoDup_nil_2.
  - simpl. apply elem_of_cons. right. apply elem_of_cons. by left.
  - reflexivity.
  - reflexivity.
Defined.

(** ** More on the cursor *)

(** X7: Any number of [fetchone] calls: the first rows of the buffer come back in
    order, every call past the end of the buffer returns [None], and the
    cursor keeps the rows not yet fetched, which a [fetchall] then returns. *)
Theorem fetchone_times_take_drop (n : nat) (self : HTTPDictCursor) :
  Cursor.fetchone_times n self
  = (map Some (take n (results self)) ++ replicate (n - length (results self)) None,
     {| results := drop n (results self); session_id := session_id self |}) /\
  fst (Cursor.fetchall (snd (Cursor.fetchone_times n self))) = drop n (results self).
Proof.
  assert (Cursor.fetchone_times n self
          = (map Some (take n (results self)) ++ replicate (n - length (results self)) None,
             {| results := drop n (results self); session_id := session_id self |})) as H.
  { revert self. induction n as [|n IH]; intros [rows sid].
    - done.
    - cbn [results session_id]. destruct rows as [|r rows].
      + change (Cursor.fetchone_times (S n) {| results := []; session_id := sid |})
          with (let (rs, self'') :=
                  Cursor.fetchone_times n {| results := []; session_id := sid |} in
                (None :: rs, self'')).
        rewrite IH. cbn [results session_id]. rewrite take_nil, drop_nil. simpl.
        by rewrite Nat.sub_0_r.
      + change (Cursor.fetchone_times (S n) {| results := r :: rows; session_id := sid |})
          with (let (rs, self'') :=
                  Cursor.fetchone_times n {| results := rows; session_id := sid |} in
                (Some r :: rs, self'')).
        rewrite IH. done. }
  split; [done|]. by rewrite H.
Qed.

(** X8: [execute] only ever adds to the end of the buffer: the rows already
    buffered stay, in order, the session id stays, and when [execute]
    raises the cursor is exactly as before. *)
Theorem execute_extends_buffer (g : Globals) (self : HTTPDictCursor) (query : string)
    (args : option (dict value)) :
  session_id (snd (Cursor.execute g self query args)) = session_id self /\
  (exists new, results (snd (Cursor.execute g self query args)) = results self ++ new) /\
  (forall e, fst (Cursor.execute g self query args) = Raise e ->
     snd (Cursor.execute g self query args) = self).
Proof.
  unfold Cursor.execute.
  destruct (http_client g) as [client|]; simpl.
  - destruct (client_query client query args _) as [res|e]; simpl.
    + destruct (decide _); simpl.
      * split; [done|]. split; [exists []; by rewrite app_nil_r|discriminate].
      * split; [done|]. split; [by eexists|discriminate].
    + split; [done|]. split; [exists []; by rewrite app_nil_r|done].
  - split; [done|]. split; [exists []; by rewrite app_nil_r|done].
Qed.

Lemma execute_appends_witness :
  let g := {| pools := []; http_pool := None;
              http_client := Some {| client_pool_mgr := None;
                                     client_query := sample_query |} |} in
  Cursor.execute g {| results := [[("name", VStr "old")]]; session_id := "5c0c3a2e" |}
    "SELECT name, engine FROM system.databases" None
  = (Ok (), {| results := [[("name", VStr "old")]] ++ sample_rows;
               session_id := "5c0c3a2e" |}).
Proof.
  intros g.
  apply (execute_appends g {| client_pool_mgr := None; client_query := sample_query |}
           {| results := [[("name", VStr "old")]]; session_id := "5c0c3a2e" |}
           "SELECT name, engine FROM system.databases" None
           {| column_names := ["name"; "engine"]; named_results := sample_rows |}).
  - reflexivity.
  - reflexivity.
  - simpl. rewrite !elem_of_cons, elem_of_nil.
    intros [H|[H|H]]; [discriminate H|discriminate H|exact H].
Defined.

(** ** More on the query functions *)

(** X10: When the query is answered without the progress column, [db_fetchall]
    returns a list exactly when every row of the answer maps, and then the
    records are those of [from_row], row by row and in the order of the
    answer. *)
Theorem db_fetchall_maps_rows {T} (model : row -> result T) (g : Globals)
    (client : AsyncClient) (sid query : string) (query_args : option (dict value))
    (res : QueryResult) (ts : list T) :
  http_client g = Some client ->
  client_query client query
    (Some (match query_args with None => [] | Some a => a end))
    [("session_id", VStr sid)] = Ok res ->
  "total_rows_to_read" ∉ column_names res ->
  (db_fetchall model g sid query query_args = Ok ts <->
   Forall2 (fun r t => fst (BaseStructure.from_row model r) = Ok t) (named_results res) ts).
Proof.
  intros Hc Hq Hm. unfold db_fetchall.
  unfold Cursor.execute. cbn [Cursor.init session_id results]. rewrite Hc, Hq.
  destruct (decide _) as [Hin|_]; [done|].
  unfold Cursor.fetchall. cbn [results app].
  destruct (named_results res) as [|r rows] eqn:Hr.
  - split; [intros [= <-]; constructor|intros H; by inversion H].
  - apply from_rows_Forall2.
Qed.

Lemma db_fetchall_maps_rows_witness :
  let g := {| pools := []; http_pool := None;
              http_client := Some {| client_pool_mgr := None;
                                     client_query := sample_query |} |} in
  db_fetchall AnyRecord g "5c0c3a2e" "SELECT name, engine FROM system.databases" None
  = Ok sample_rows <->
  Forall2 (fun r t => fst (BaseStructure.from_row AnyRecord r) = Ok t)
    (named_results {| column_names := ["name"; "engine"]; named_results := sample_rows |})
    sample_rows.
Proof.
  intros g.
  apply (db_fetchall_maps_rows AnyRecord g
           {| client_pool_mgr := None; client_query := sample_query |}).
  - reflexivity.
  - reflexivity.
  - simpl. rewrite !elem_of_cons, elem_of_nil.
    intros [H|[H|H]]; [discriminate H|discriminate H|exact H].
Defined.

(** X11: Whatever [db_fetchall] raises is the scope error (no client published),
    the exception the driver raised for the query, or the exception
    [from_row] raised for one of the rows of the answer: no exception is
    made up, wrapped or swallowed on the way. *)
Theorem db_fetchall_raises {T} (model : row -> result T) (g : Globals)
    (sid query : string) (query_args : option (dict value)) (e : exn) :
  db_fetchall model g sid query query_args = Raise e ->
  (http_client g = None /\ e = Cursor.scope_error) \/
  (exists client,
     http_client g = Some client /\
     (client_query client query
        (Some (match query_args with None => [] | Some a => a end))
        [("session_id", VStr sid)] = Raise e \/
      exists res r,
        client_query client query
          (Some (match query_args with None => [] | Some a => a end))
          [("session_id", VStr sid)] = Ok res /\
        r ∈ named_results res /\
        fst (BaseStructure.from_row model r) = Raise e)).
Proof.
  unfold db_fetchall, Cursor.execute. cbn [Cursor.init session_id results].
  destruct (http_client g) as [client|]; [|intros [= <-]; by left].
  intros H. right. exists client. split; [done|].
  destruct (client_query client query _ _) as [res|e'] eqn:Hq;
    [|left; by inversion H].
  right. exists res. destruct (decide _) as [Hm|Hm]; simpl in H; [discriminate H|].
  destruct (named_results res) as [|r rows] eqn:Hr; [discriminate H|].
  destruct (from_rows_Raise model (r :: rows) e H) as (r0 & Hin & He).
  by exists r0.
Qed.

Lemma db_fetchall_raises_witness :
  let g := {| pools := []; http_pool := None;
              http_client := Some {| client_pool_mgr := None;
                                     client_query := sample_query |} |} in
  (http_client g = None /\
   DriverError "Table default.missing does not exist" = Cursor.scope_error) \/
  (exists client,
     http_client g = Some client /\
     (client_query client "missing" (Some []) [("session_id", VStr "5c0c3a2e")]
      = Raise (DriverError "Table default.missing does not exist") \/
      exists res r,
        client_query client "missing" (Some []) [("session_id", VStr "5c0c3a2e")] = Ok res /\
        r ∈ named_results res /\
        fst (BaseStructure.from_row AnyRecord r)
        = Raise (DriverError "Table default.missing does not exist"))).
Proof.
  intros g.
  apply (db_fetchall_raises AnyRecord g "5c0c3a2e" "missing" None).
  reflexivity.
Defined.

(** X12: [db_fetchone] agrees with [db_fetchall]: when [db_fetchall] returns a
    list for a query, [db_fetchone] returns its first record for the same
    query, and [None] when the list is empty. *)
Theorem db_fetchone_head_of_db_fetchall {T} (model : row -> result T) (g : Globals)
    (sid query : string) (query_args : option (dict value)) (ts : list T) :
  db_fetchall model g sid query query_args = Ok ts ->
  db_fetchone model g sid query query_args = Ok (head ts).
Proof.
  unfold db_fetchall, db_fetchone.
  destruct (Cursor.execute g (Cursor.init sid) query _) as [[[]|e] self]; [|discriminate].
  unfold Cursor.fetchall, Cursor.fetchone.
  destruct (results self) as [|r rows]; [by intros [= <-]|].
  simpl. destruct (BaseStructure.from_row model r) as [[t|e] r']; simpl.
  - destruct (BaseStructure.from_rows model rows) as [[ts'|e] rows']; simpl;
      [by intros [= <-]|discriminate].
  - discriminate.
Qed.

Lemma db_fetchone_head_of_db_fetchall_witness :
  let g := {| pools := []; http_pool := None;
              http_client := Some {| client_pool_mgr := None;
                                     client_query := sample_query |} |} in
  db_fetchone AnyRecord g "5c0c3a2e" "SELECT name, engine FROM system.databases" None
  = Ok (head sample_rows).
Proof.
  intros g. apply (db_fetchone_head_of_db_fetchall AnyRecord g). reflexivity.
Defined.

(** ** More on the scope *)

Lemma with_clickhouse_leaves_client_witness :
  http_pool (snd (with_clickhouse sample_env [("host", VStr "localhost")]
                    sample_body module_init)) = None /\
  http_client (snd (with_clickhouse sample_env [("host", VStr "localhost")]
                      sample_body module_init))
  = Some {| client_pool_mgr := Some 0; client_query := sample_query |}.
Proof.
  apply (with_clickhouse_leaves_client sample_env [("host", VStr "localhost")]
           sample_body module_init).
  - reflexivity.
  - intros y g0. reflexivity.
Defined.





(** ** [Main.list_tables] *)

Section ListTables.
Variable Table_cls : row -> result Table.t.
Variable Column_cls : row -> result Column.t.
Variable g : Globals.
Variable uuid : nat -> string.
Variable database : string.

Local Abbreviation columns_of n table :=
  (db_fetchall Column_cls g (uuid n) Main.columns_query
     (Some [("database", VStr database); ("table", VStr (Table.name table))])).

Lemma fill_columns_Ok (tables : list Table.t) :
  forall n ts,
    Main.fill_columns Column_cls g uuid database n tables = Ok ts <->
    length ts = length tables /\
    (forall i table, tables !! i = Some table ->
       exists cols, columns_of (n + i) table = Ok cols /\
                    ts !! i = Some (Table.set_columns table cols)).
Proof.
  induction tables as [|table tables IH]; intros n ts; simpl.
  - split.
    + intros [= <-]. split; [done|]. intros i t Hi. by rewrite lookup_nil in Hi.
    + intros [Hlen _]. destruct ts; [done|discriminate Hlen].
  - split.
    + destruct (db_fetchall Column_cls g (uuid n) _ _) as [cols|e] eqn:Ec; [|discriminate].
      destruct (Main.fill_columns Column_cls g uuid database (S n) tables)
        as [filled|e] eqn:Ef; [|discriminate].
      intros [= <-]. apply IH in Ef as [Hlen Hall]. split; [simpl; by rewrite Hlen|].
      intros [|i] t Hi; simpl in Hi.
      * inversion Hi; subst t. exists cols. by rewrite Nat.add_0_r.
      * destruct (Hall i t Hi) as (cs & Hcs & Hts). exists cs.
        by rewrite Nat.add_succ_r.
    + intros [Hlen Hall]. destruct ts as [|t ts]; [discriminate Hlen|].
      destruct (Hall 0 table eq_refl) as (cols & Hc & Ht).
      rewrite Nat.add_0_r in Hc. rewrite Hc. simpl in Ht. inversion Ht; subst t.
      assert (Main.fill_columns Column_cls g uuid database (S n) tables = Ok ts) as ->.
      { apply IH. split; [by inversion Hlen|].
        intros i t Hi. destruct (Hall (S i) t Hi) as (cs & Hcs & Hts).
        exists cs. by rewrite Nat.add_succ_r in Hcs. }
      done.
Qed.

Lemma fill_columns_Raise (tables : list Table.t) :
  forall n e,
    Main.fill_columns Column_cls g uuid database n tables = Raise e ->
    exists i table,
      tables !! i = Some table /\
      columns_of (n + i) table = Raise e /\
      (forall j earlier, j < i -> tables !! j = Some earlier ->
         exists cols, columns_of (n + j) earlier = Ok cols).
Proof.
  induction tables as [|table tables IH]; intros n e; simpl; [discriminate|].
  destruct (db_fetchall Column_cls g (uuid n) _ _) as [cols|e'] eqn:Ec.
  - destruct (Main.fill_columns Column_cls g uuid database (S n) tables)
      as [filled|e'] eqn:Ef; [discriminate|].
    intros [= ->]. destruct (IH _ _ Ef) as (i & t & Hi & He & Hbefore).
    exists (S i), t. split; [done|]. split; [by rewrite Nat.add_succ_r|].
    intros [|j] earlier Hj Hearlier; simpl in Hearlier.
    + inversion Hearlier; subst earlier. exists cols. by rewrite Nat.add_0_r.
    + destruct (Hbefore j earlier) as (cs & Hcs); [lia|done|].
      exists cs. by rewrite Nat.add_succ_r.
  - intros [= ->]. exists 0, table. split; [done|]. split; [by rewrite Nat.add_0_r|].
    intros j earlier Hj. lia.
Qed.

End ListTables.

(** X16: [list_tables] returns a list exactly when the tables query and every
    columns query return one: there is one table per record of the tables
    query, in the same order, and the i-th is that record with [columns]
    replaced by the answer to the columns query for its [name] (asked with
    the database name and the table name as named arguments). *)
Theorem list_tables_Ok (Table_cls : row -> result Table.t)
    (Column_cls : row -> result Column.t) (g : Globals) (uuid : nat -> string)
    (database : string) (like not_like : option string) (ts : list Table.t) :
  Main.list_tables Table_cls Column_cls g uuid database like not_like = Ok ts <->
  exists tables,
    db_fetchall Table_cls g (uuid 0) (Main.tables_query like not_like)
      (Some [("database", VStr database); ("like", Main.optional_str like);
             ("not_like", Main.optional_str not_like)]) = Ok tables /\
    length ts = length tables /\
    (forall i table, tables !! i = Some table ->
       exists cols,
         db_fetchall Column_cls g (uuid (S i)) Main.columns_query
           (Some [("database", VStr database); ("table", VStr (Table.name table))])
         = Ok cols /\
         ts !! i = Some (Table.set_columns table cols)).
Proof.
  unfold Main.list_tables.
  destruct (db_fetchall Table_cls g (uuid 0) _ _) as [tables|e].
  - rewrite fill_columns_Ok. split.
    + intros [Hlen Hall]. exists tables. by repeat split.
    + intros (tables' & [= <-] & Hlen & Hall). by split.
  - split; [discriminate|]. by intros (tables' & [=] & _).
Qed.

(** X17: What [list_tables] raises is what the tables query raised, or what the
    columns query of one table raised after the columns queries of all
    tables before it had returned: the first failure ends the call and no
    partial list is returned. *)
Theorem list_tables_raises (Table_cls : row -> result Table.t)
    (Column_cls : row -> result Column.t) (g : Globals) (uuid : nat -> string)
    (database : string) (like not_like : option string) (e : exn) :
  Main.list_tables Table_cls Column_cls g uuid database like not_like = Raise e ->
  db_fetchall Table_cls g (uuid 0) (Main.tables_query like not_like)
    (Some [("database", VStr database); ("like", Main.optional_str like);
           ("not_like", Main.optional_str not_like)]) = Raise e \/
  exists tables i table,
    db_fetchall Table_cls g (uuid 0) (Main.tables_query like not_like)
      (Some [("database", VStr database); ("like", Main.optional_str like);
             ("not_like", Main.optional_str not_like)]) = Ok tables /\
    tables !! i = Some table /\
    db_fetchall Column_cls g (uuid (S i)) Main.columns_query
      (Some [("database", VStr database); ("table", VStr (Table.name table))])
    = Raise e /\
    (forall j earlier, j < i -> tables !! j = Some earlier ->
       exists cols,
         db_fetchall Column_cls g (uuid (S j)) Main.columns_query
           (Some [("database", VStr database); ("table", VStr (Table.name earlier))])
         = Ok cols).
Proof.
  unfold Main.list_tables.
  destruct (db_fetchall Table_cls g (uuid 0) _ _) as [tables|e'];
    [|intros [= ->]; by left].
  intros H. right.
  destruct (fill_columns_Raise Column_cls g uuid database tables 1 e H)
    as (i & table & Hi & He & Hbefore).
  exists tables, i, table. by repeat split.
Qed.

Lemma list_tables_raises_witness :
  db_fetchall sample_Table_cls sample_globals (sample_uuid 0) (Main.tables_query None None)
    (Some [("database", VStr "default"); ("like", Main.optional_str None);
           ("not_like", Main.optional_str None)])
  = Raise (ValidationError "Column") \/
  exists tables i table,
    db_fetchall sample_Table_cls sample_globals (sample_uuid 0) (Main.tables_query None None)
      (Some [("database", VStr "default"); ("like", Main.optional_str None);
             ("not_like", Main.optional_str None)]) = Ok tables /\
    tables !! i = Some table /\
    db_fetchall sample_failing_Column_cls sample_globals
      (sample_uuid (S i)) Main.columns_query
      (Some [("database", VStr "default"); ("table", VStr (Table.name table))])
    = Raise (ValidationError "Column") /\
    (forall j earlier, j < i -> tables !! j = Some earlier ->
       exists cols,
         db_fetchall sample_failing_Column_cls sample_globals
           (sample_uuid (S j)) Main.columns_query
           (Some [("database", VStr "default"); ("table", VStr (Table.name earlier))])
         = Ok cols).
Proof.
  apply (list_tables_raises sample_Table_cls sample_failing_Column_cls
           sample_globals sample_uuid "default" None None).
  reflexivity.
Defined.
